(** * Verification model of the search orchestration pipeline of core-github-api

    Shallow embedding of:
    - [src/src/agents/orchestrator.ts]: [OrchestratorAgent.start], [getStatus],
      [workflowComplete], [generateSearchTerms];
    - [src/src/index.ts]: [searchRepositoriesWithRetry], [analyzeRepository] and
      the [queue] handler of the default export;
    - [src/src/routes/api/agents/session.ts] and [sessionStatus] (the callers,
      which both address the Durable Object named ['orchestrator']);
    - [src/migrations_agents/0001_add_agent_tables.sql] (the D1 tables and the
      [UNIQUE (session_id, repo_full_name)] constraint).

    External services (Workers AI, the GitHub search behind [app.fetch], the
    random UUID) are oracles collected in a record [Env]. *)

From Stdlib Require Import List String Ascii ZArith QArith Bool Lia.
From Stdlib Require Import Permutation Sorted Mergesort.
Import ListNotations.
Open Scope string_scope.
Local Set Warnings "-register-all".

(* ------------------------------------------------------------------ *)
(** ** JavaScript string helpers *)

(** [String.prototype.split('\n')]: [""] splits into [[""]]. *)
Fixpoint split_on (c : ascii) (s : string) : list string :=
  match s with
  | EmptyString => [EmptyString]
  | String a rest =>
      if Ascii.eqb a c then EmptyString :: split_on c rest
      else match split_on c rest with
           | [] => [String a EmptyString]
           | h :: t => String a h :: t
           end
  end.

Definition newline : ascii := Ascii.ascii_of_nat 10.

(** White space removed by [String.prototype.trim] (ASCII part: TAB, LF, VT,
    FF, CR, SPACE). *)
Definition is_ws (a : ascii) : bool :=
  let n := nat_of_ascii a in
  ((9 <=? n) && (n <=? 13))%nat || (n =? 32)%nat.

Fixpoint drop_ws (l : list ascii) : list ascii :=
  match l with
  | a :: r => if is_ws a then drop_ws r else l
  | [] => []
  end.

Definition js_trim (s : string) : string :=
  string_of_list_ascii
    (rev (drop_ws (rev (drop_ws (list_ascii_of_string s))))).

(** [s.startsWith(p)] *)
Definition starts_with (p s : string) : bool := String.prefix p s.

(* ------------------------------------------------------------------ *)
(** ** JSON values, as produced by [JSON.parse] *)

Inductive json : Type :=
| JNull
| JBool (b : bool)
| JNum (q : Q)
| JStr (s : string)
| JArr (l : list json)
| JObj (fields : list (string * json)).

(** Property access [v.k]; [None] is [undefined].  [JSON.parse] keeps the
    last of duplicated keys.  On [null] the code never reaches the access
    ([structuredResponse && ...] short-circuits), and on other non-objects the
    access yields [undefined]. *)
Definition json_get (v : json) (k : string) : option json :=
  match v with
  | JObj kvs =>
      fold_left (fun acc kv => if String.eqb (fst kv) k then Some (snd kv) else acc)
        kvs None
  | _ => None
  end.

(* ------------------------------------------------------------------ *)
(** ** Workers AI responses *)

(** Result of [await ai.run(model, ...)]: either a plain string or an object
    whose [response] property may be missing. *)
Inductive ai_response : Type :=
| RespString (s : string)
| RespObject (response : option string).

(** An AI call either throws or resolves. *)
Inductive ai_call : Type :=
| AIThrows
| AIReturns (r : ai_response).

(** [typeof r === 'string' ? r : (r as any).response || ''] *)
Definition ai_text (r : ai_response) : string :=
  match r with
  | RespString s => s
  | RespObject (Some s) => s
  | RespObject None => ""
  end.

(** The structuring call [ai.run(llama, {response_format: json_schema})]
    followed by [JSON.parse((llamaResponse as any).response)]: it throws when
    the call throws or the text does not parse, otherwise it yields the parsed
    value. *)
Inductive structured_call : Type :=
| StructThrows
| StructParsed (v : json).

(* ------------------------------------------------------------------ *)
(** ** The regular expression [/(\d\.\d+)/] and [Number.parseFloat] *)

Definition is_digit (a : ascii) : bool :=
  let n := nat_of_ascii a in ((48 <=? n) && (n <=? 57))%nat.

Fixpoint take_digits (l : list ascii) : list ascii :=
  match l with
  | d :: r => if is_digit d then d :: take_digits r else []
  | [] => []
  end.

(** Leftmost match of [\d\.\d+], with the greedy [\d+]. *)
Fixpoint regex_first_float (l : list ascii) : option (list ascii) :=
  match l with
  | d :: rest =>
      match rest with
      | dot :: e :: rest' =>
          if is_digit d && Ascii.eqb dot "." && is_digit e
          then Some (d :: dot :: e :: take_digits rest')
          else regex_first_float rest
      | _ => None
      end
  | [] => None
  end.

Definition digit_val (a : ascii) : Z := Z.of_nat (nat_of_ascii a - 48).

Definition digits_Z (l : list ascii) : Z :=
  fold_left (fun acc a => acc * 10 + digit_val a)%Z l 0%Z.

(** A JavaScript number as far as this code needs it; [JsFinite] is the
    value of a finite double. *)
Inductive js_number : Type :=
| JsNaN
| JsPosInf
| JsNegInf
| JsFinite (q : Q).

(** [a / b] rounded to the nearest integer, ties to even ([0 <= a], [0 < b]). *)
Definition round_div (a b : Z) : Z :=
  let q := (a / b)%Z in
  let r := (a mod b)%Z in
  match Z.compare (2 * r) b with
  | Lt => q
  | Eq => if Z.even q then q else (q + 1)%Z
  | Gt => (q + 1)%Z
  end.

(** [floor (log2 (p / q))] for [0 < p] and [0 < q]. *)
Definition log2_ratio (p q : Z) : Z :=
  let t := (Z.log2 p - Z.log2 q)%Z in
  if (0 <=? t)%Z then (if (q * 2 ^ t <=? p)%Z then t else (t - 1)%Z)
  else (if (q <=? p * 2 ^ (- t))%Z then t else (t - 1)%Z).

(** The IEEE 754 binary64 number nearest to [p / q] ([0 <= p], [0 < q]),
    ties to even: 53 significant bits, subnormal below [2^-1022] (scale
    [2^-1074]), [Infinity] when the rounded value reaches [2^1024]. *)
Definition double_of_ratio (p q : Z) : js_number :=
  if (p =? 0)%Z then JsFinite 0 else
  let k := Z.min (52 - log2_ratio p q) 1074 in
  if (0 <=? k)%Z then JsFinite (Qmake (round_div (p * 2 ^ k) q) (Z.to_pos (2 ^ k)))
  else
    let v := (round_div p (q * 2 ^ (- k)) * 2 ^ (- k))%Z in
    if (2 ^ 1024 <=? v)%Z then JsPosInf else JsFinite (inject_Z v).

(** The decimal value of a match [d.ddd], as numerator and denominator. *)
Definition decimal_of_match (m : list ascii) : Z * Z :=
  match m with
  | d :: _ :: frac =>
      (digit_val d * 10 ^ Z.of_nat (List.length frac) + digits_Z frac,
       10 ^ Z.of_nat (List.length frac))%Z
  | _ => (0, 1)%Z
  end.

(** [Number.parseFloat] on a match [d.ddd]: the double nearest to its
    decimal value (V8, the engine of Workers, rounds correctly).  A double
    equal to the decimal is written as that decimal. *)
Definition parse_float_match (m : list ascii) : js_number :=
  let (p, q) := decimal_of_match m in
  match double_of_ratio p q with
  | JsFinite v =>
      if Qeq_bool v (Qmake p (Z.to_pos q)) then JsFinite (Qmake p (Z.to_pos q))
      else JsFinite v
  | x => x
  end.

(* ------------------------------------------------------------------ *)
(** ** [analyzeRepository] (src/src/index.ts) *)

Record repo : Type := mkRepo {
  full_name : string;
  html_url : string;
  description : string
}.

(** Fallible pure results. *)
Inductive js_error : Type :=
| AIError
| FetchError
| TypeError
| UniqueConstraintViolation.

Inductive result (A : Type) : Type :=
| Ok (a : A)
| Err (e : js_error).
Arguments Ok {A} a.
Arguments Err {A} e.

(** The AI oracles seen by [analyzeRepository]: the reasoning call depends on
    the repository and the search term (they are in its instructions), the
    structuring call on the raw reasoning text. *)
Record AnalyzerAI : Type := mkAnalyzerAI {
  reasoning_call : string -> string -> ai_call;
  structuring_call : string -> structured_call
}.

(** Fallback of the [catch] block: [Number.parseFloat] of the first
    [\d\.\d+] of the raw text when [Number.isFinite] of it, else 0. *)
Definition regex_fallback (raw : string) : Q :=
  match regex_first_float (list_ascii_of_string raw) with
  | Some m =>
      match parse_float_match m with
      | JsFinite score => score
      | _ => 0
      end
  | None => 0
  end.

Definition analyzeRepository (ai : AnalyzerAI) (r : repo) (searchTerm : string)
  : result Q :=
  match reasoning_call ai (full_name r) searchTerm with
  | AIThrows => Err AIError
  | AIReturns resp =>
      let rawAnalysisText := ai_text resp in
      match structuring_call ai rawAnalysisText with
      | StructThrows => Ok (regex_fallback rawAnalysisText)
      | StructParsed structuredResponse =>
          match json_get structuredResponse "relevancyScore" with
          | Some (JNum q) => Ok q
          | _ => Ok 0
          end
      end
  end.

(* ------------------------------------------------------------------ *)
(** ** [generateSearchTerms] (src/src/agents/orchestrator.ts) *)

(** The AI binding as [generateSearchTerms] would use it. *)
Record GeneratorAI : Type := mkGeneratorAI {
  query_call : string -> ai_call;              (* gpt-oss-120b on the prompt *)
  query_structuring_call : string -> structured_call  (* llama on raw text *)
}.

(** [generateSearchTerms(prompt)].  Line 77 reads

      const gptInstructions = ```
        You are an expert GitHub search query generator. ...
      ```;

    JavaScript has no triple-quoted strings: the first two backquotes are
    the empty template literal, whose value [""] then tags the template
    literal opened by the third one.  Evaluating that tagged template calls
    [""] as a function and throws [TypeError: "" is not a function].  This
    is the first statement of the body, before [this.env.AI.run], so the
    function rejects with that TypeError whatever the prompt and whatever the
    AI binding would answer; nothing after line 77 runs. *)
Definition generateSearchTerms (ai : GeneratorAI) (prompt : string)
  : result (list string) :=
  Err TypeError.

Open Scope Z_scope.

(* ------------------------------------------------------------------ *)
(** ** D1 tables (migrations_agents/0001_add_agent_tables.sql) *)

Record session_row : Type := mkSessionRow {
  ss_id : Z;
  ss_session_id : string;
  ss_prompt : string
}.

(** [searches.status] is TEXT with default ['pending']; the code writes only
    ['completed']. *)
Inductive search_status : Type := StPending | StRunning | StCompleted | StFailed.

Record search_row : Type := mkSearchRow {
  sr_id : Z;
  sr_session_id : string;
  sr_search_term : string;
  sr_status : search_status
}.

Record analysis_row : Type := mkAnalysisRow {
  ra_id : Z;
  ra_session_id : string;
  ra_search_id : Z;
  ra_repo_full_name : string;
  ra_repo_url : string;
  ra_description : string;
  ra_relevancy_score : Q;
  ra_analyzed_at : Z
}.

(** The database, with one AUTOINCREMENT counter per table and the value of
    [CURRENT_TIMESTAMP]. *)
Record db : Type := mkDB {
  sessions_t : list session_row;
  searches_t : list search_row;
  repo_analysis_t : list analysis_row;
  seq_sessions : Z;
  seq_searches : Z;
  seq_analysis : Z;
  current_timestamp : Z
}.

(** [INSERT INTO sessions (session_id, prompt)]; [session_id] is UNIQUE. *)
Definition insert_session (sid prompt : string) (d : db) : result db :=
  if existsb (fun r => String.eqb (ss_session_id r) sid) (sessions_t d)
  then Err UniqueConstraintViolation
  else Ok (mkDB (sessions_t d ++ [mkSessionRow (seq_sessions d + 1) sid prompt])
                (searches_t d) (repo_analysis_t d)
                (seq_sessions d + 1) (seq_searches d) (seq_analysis d)
                (current_timestamp d)).

(** [INSERT INTO searches (session_id, search_term)], returning
    [meta.last_row_id]. *)
Definition insert_search (sid term : string) (d : db) : db * Z :=
  let id := seq_searches d + 1 in
  (mkDB (sessions_t d) (searches_t d ++ [mkSearchRow id sid term StPending])
        (repo_analysis_t d) (seq_sessions d) id (seq_analysis d)
        (current_timestamp d), id).

(** [UPDATE searches SET status = 'completed' WHERE id = ?] *)
Definition complete_search (searchId : Z) (d : db) : db :=
  mkDB (sessions_t d)
       (map (fun r => if Z.eqb (sr_id r) searchId
                      then mkSearchRow (sr_id r) (sr_session_id r) (sr_search_term r) StCompleted
                      else r) (searches_t d))
       (repo_analysis_t d) (seq_sessions d) (seq_searches d) (seq_analysis d)
       (current_timestamp d).

(** [SELECT id FROM repo_analysis WHERE session_id = ? AND repo_full_name = ?]
    is non-empty. *)
Definition analysis_exists (sid name : string) (rows : list analysis_row) : bool :=
  existsb (fun r => String.eqb (ra_session_id r) sid
                    && String.eqb (ra_repo_full_name r) name) rows.

(** [INSERT INTO repo_analysis ...], rejected by
    [UNIQUE (session_id, repo_full_name)]. *)
Definition insert_analysis (sid : string) (searchId : Z) (r : repo) (score : Q)
  (d : db) : result db :=
  if analysis_exists sid (full_name r) (repo_analysis_t d)
  then Err UniqueConstraintViolation
  else
    let id := seq_analysis d + 1 in
    Ok (mkDB (sessions_t d) (searches_t d)
             (repo_analysis_t d ++
                [mkAnalysisRow id sid searchId (full_name r) (html_url r)
                               (description r) score (current_timestamp d)])
             (seq_sessions d) (seq_searches d) id (current_timestamp d)).

(* ------------------------------------------------------------------ *)
(** ** The world: D1, Durable Object storage, workflows, queue acks *)

(** Parameters of [GITHUB_SEARCH_WORKFLOW.create] (whose id is
    [search-${searchId}], kept here as the number [searchId]), which the workflow sends
    unchanged to [SEARCH_QUEUE] (src/workflows/search.ts). *)
Record task_msg : Type := mkTaskMsg {
  msg_session_id : string;
  msg_search_id : Z;
  msg_search_term : string
}.

(** A delivered queue message. *)
Record message : Type := mkMessage {
  m_id : Z;
  m_body : task_msg
}.

Inductive event : Type :=
| EvFetch (term : string) (attempt : nat)
| EvSleep (ms : Z).

(** [w_do n] is the value stored under ['pendingSearches'] in the storage of
    the [ORCHESTRATOR] Durable Object [idFromName(n)] ([None]: never put). *)
Record world : Type := mkWorld {
  w_db : db;
  w_do : string -> option (list Z);
  w_workflows : list (Z * task_msg);
  w_acked : list Z;
  w_trace : list event
}.

Definition set_db (d : db) (w : world) : world :=
  mkWorld d (w_do w) (w_workflows w) (w_acked w) (w_trace w).

Definition put_pending (name : string) (v : list Z) (w : world) : world :=
  mkWorld (w_db w)
          (fun n => if String.eqb n name then Some v else w_do w n)
          (w_workflows w) (w_acked w) (w_trace w).

Definition add_workflow (id : Z) (p : task_msg) (w : world) : world :=
  mkWorld (w_db w) (w_do w) (w_workflows w ++ [(id, p)]) (w_acked w) (w_trace w).

Definition add_ack (id : Z) (w : world) : world :=
  mkWorld (w_db w) (w_do w) (w_workflows w) (w_acked w ++ [id]) (w_trace w).

Definition emit (e : event) (w : world) : world :=
  mkWorld (w_db w) (w_do w) (w_workflows w) (w_acked w) (w_trace w ++ [e]).

(* ------------------------------------------------------------------ *)
(** ** A state and error monad for the async code *)

Definition M (A : Type) : Type := world -> result A * world.

Definition ret {A} (a : A) : M A := fun w => (Ok a, w).

Definition bind {A B} (m : M A) (k : A -> M B) : M B :=
  fun w => match m w with
           | (Ok a, w') => k a w'
           | (Err e, w') => (Err e, w')
           end.

Definition throw {A} (e : js_error) : M A := fun w => (Err e, w).

Definition modify (f : world -> world) : M unit := fun w => (Ok tt, f w).

Definition gets {A} (f : world -> A) : M A := fun w => (Ok (f w), w).

Definition lift {A} (r : result A) : M A :=
  match r with Ok a => ret a | Err e => throw e end.

Notation "x <- m ;; k" := (bind m (fun x => k))
  (at level 61, m at next level, right associativity).

(** [for (const x of l) body] *)
Fixpoint for_of {A} (l : list A) (body : A -> M unit) : M unit :=
  match l with
  | [] => ret tt
  | x :: r => _ <- body x ;; for_of r body
  end.

(** [await this.env.DB.prepare(...).run()] on a statement that may fail. *)
Definition db_run (f : db -> result db) : M unit :=
  fun w => match f (w_db w) with
           | Ok d => (Ok tt, set_db d w)
           | Err e => (Err e, w)
           end.

(* ------------------------------------------------------------------ *)
(** ** External services *)

(** One [app.fetch] of [/api/octokit/search/repos?q=...]: it throws (also when
    [response.json()] throws), or resolves with a status and, for the JSON
    body, its [items] property ([None]: [undefined]). *)
Inductive fetch_outcome : Type :=
| FetchThrows
| FetchResponse (status : Z) (items : option (list repo)).

Record Env : Type := mkEnv {
  random_uuid : string;                     (* crypto.randomUUID() *)
  gen_ai : GeneratorAI;
  analyzer_ai : AnalyzerAI;
  search_fetch : string -> nat -> fetch_outcome  (* term, attempt index *)
}.

(** The name every caller passes to [ORCHESTRATOR.idFromName]
    (session.ts, sessionStatus.ts and the queue handler). *)
Definition orchestrator_name : string := "orchestrator".

(* ------------------------------------------------------------------ *)
(** ** [OrchestratorAgent] (src/src/agents/orchestrator.ts) *)

(** The loop of step 3 of [start]: one [searches] row and one workflow per
    term, collecting [searchIds]. *)
Fixpoint launch (sessionId : string) (terms : list string) : M (list Z) :=
  match terms with
  | [] => ret []
  | searchTerm :: rest =>
      searchId <- (fun w => let (d', id) := insert_search sessionId searchTerm (w_db w) in
                            (Ok id, set_db d' w)) ;;
      _ <- modify (add_workflow searchId (mkTaskMsg sessionId searchId searchTerm)) ;;
      ids <- launch sessionId rest ;;
      ret (searchId :: ids)
  end.

(** [start(prompt)], run on the Durable Object named [self]. *)
Definition start (self : string) (env : Env) (prompt : string) : M string :=
  let sessionId := random_uuid env in
  _ <- db_run (insert_session sessionId prompt) ;;
  searchTerms <- lift (generateSearchTerms (gen_ai env) prompt) ;;
  searchIds <- launch sessionId searchTerms ;;
  _ <- modify (put_pending self searchIds) ;;
  ret sessionId.

(** [POST /session] (session.ts). *)
Definition session_api_start (env : Env) (prompt : string) : M string :=
  start orchestrator_name env prompt.

(** [ORDER BY relevancy_score DESC] as carried out by the database engine:
    SQL fixes only that the result is a permutation of its input sorted by
    non-increasing score, which [sql_order_ok] states. *)
Definition sql_engine : Type := list analysis_row -> list analysis_row.

Definition score_ge (a b : analysis_row) : bool :=
  Qle_bool (ra_relevancy_score b) (ra_relevancy_score a).

Definition sql_order_ok (order_desc : sql_engine) : Prop :=
  forall l, Permutation (order_desc l) l /\ Sorted (fun a b => score_ge a b = true) (order_desc l).

Inductive status_kind : Type := Pending | Completed.

Record status_reply : Type := mkReply {
  st_status : status_kind;
  st_results : list analysis_row
}.

(** [getStatus(sessionId)], run on the Durable Object named [self]. *)
Definition getStatus (self : string) (order_desc : sql_engine) (sessionId : string)
  (w : world) : status_reply :=
  match w_do w self with
  | Some (_ :: _) => mkReply Pending []
  | _ =>
      mkReply Completed
        (firstn 10 (order_desc
           (filter (fun r => String.eqb (ra_session_id r) sessionId)
                   (repo_analysis_t (w_db w)))))
  end.

(** [GET /session/{id}] (sessionStatus.ts). *)
Definition session_status_api (order_desc : sql_engine) (id : string) (w : world)
  : status_reply :=
  getStatus orchestrator_name order_desc id w.

(** [workflowComplete(searchId)], run on the Durable Object named [self]. *)
Definition workflowComplete (self : string) (searchId : Z) : M unit :=
  fun w => match w_do w self with
           | Some l => (Ok tt, put_pending self (filter (fun id => negb (Z.eqb id searchId)) l) w)
           | None => (Ok tt, w)
           end.

(* ------------------------------------------------------------------ *)
(** ** [searchRepositoriesWithRetry] (src/src/index.ts) *)

Inductive search_json : Type :=
| SearchJson (items : option (list repo))
| SearchUndefined.   (* the loop ran out without returning *)

(** Iteration [i] of [for (let i = 0; i < retries; i++)], [n] iterations
    left. *)
Fixpoint search_loop (env : Env) (searchTerm : string) (retries i n : nat)
  : M search_json :=
  match n with
  | O => ret SearchUndefined
  | S n' =>
      _ <- modify (emit (EvFetch searchTerm i)) ;;
      match search_fetch env searchTerm i with
      | FetchResponse st items =>
          if Z.eqb st 200 then ret (SearchJson items)
          else search_loop env searchTerm retries (S i) n'
      | FetchThrows =>
          if Nat.eqb i (retries - 1) then throw FetchError
          else _ <- modify (emit (EvSleep (1000 * Z.of_nat (i + 1)))) ;;
               search_loop env searchTerm retries (S i) n'
      end
  end.

Definition searchRepositoriesWithRetry (env : Env) (searchTerm : string)
  (retries : nat) : M search_json :=
  search_loop env searchTerm retries 0 retries.

(* ------------------------------------------------------------------ *)
(** ** The [queue] handler (src/src/index.ts)

    The AI binding is assumed configured (otherwise the handler throws before
    any message). *)

(** Steps 2a-2c for one repository. *)
Definition analyze_candidate (env : Env) (sessionId : string) (searchId : Z)
  (searchTerm : string) (r : repo) : M unit :=
  rows <- gets (fun w => repo_analysis_t (w_db w)) ;;
  if analysis_exists sessionId (full_name r) rows then ret tt
  else
    score <- lift (analyzeRepository (analyzer_ai env) r searchTerm) ;;
    db_run (insert_analysis sessionId searchId r score).

(** The body of [for (const message of batch.messages)]. *)
Definition process_message (env : Env) (msg : message) : M unit :=
  let sessionId := msg_session_id (m_body msg) in
  let searchId := msg_search_id (m_body msg) in
  let searchTerm := msg_search_term (m_body msg) in
  searchResults <- searchRepositoriesWithRetry env searchTerm 3 ;;
  items <- match searchResults with
           | SearchJson (Some items) => ret items
           | _ => throw TypeError   (* searchResults.items on undefined *)
           end ;;
  _ <- for_of items (analyze_candidate env sessionId searchId searchTerm) ;;
  _ <- modify (fun w => set_db (complete_search searchId (w_db w)) w) ;;
  _ <- workflowComplete orchestrator_name searchId ;;
  modify (add_ack (m_id msg)).

Definition queue (env : Env) (batch : list message) : M unit :=
  for_of batch (process_message env).

(* ------------------------------------------------------------------ *)
(** ** Concurrent consumers on one session's candidates

    Several [queue] invocations run at once on the same D1 database.  Each
    one walks its [searchResults.items] with the loop of [analyze_candidate];
    the awaits of that loop are the points where another consumer may run.
    A consumer is split at those points: the existence check (2a) and the
    insert (2c), with the [analyzeRepository] outcome (2b) between them. *)

Record consumer : Type := mkConsumer {
  c_session : string;
  c_search : Z;
  c_todo : list (repo * result Q);          (* candidates and their 2b outcome *)
  c_checked : option (repo * result Q);     (* passed 2a, insert pending *)
  c_aborted : bool                          (* the handler has thrown *)
}.

(** Step 2a: the [SELECT]; a hit is skipped ([continue]). *)
Definition consumer_check (d : db) (c : consumer) : consumer :=
  match c_checked c, c_todo c with
  | None, (r, a) :: rest =>
      if analysis_exists (c_session c) (full_name r) (repo_analysis_t d)
      then mkConsumer (c_session c) (c_search c) rest None (c_aborted c)
      else mkConsumer (c_session c) (c_search c) rest (Some (r, a)) (c_aborted c)
  | _, _ => c
  end.

(** Steps 2b-2c: [analyzeRepository] then the [INSERT]; a failure of either
    throws out of the handler. *)
Definition consumer_insert (d : db) (c : consumer) : db * consumer :=
  match c_checked c with
  | Some (r, Ok q) =>
      match insert_analysis (c_session c) (c_search c) r q d with
      | Ok d' => (d', mkConsumer (c_session c) (c_search c) (c_todo c) None (c_aborted c))
      | Err _ => (d, mkConsumer (c_session c) (c_search c) [] None true)
      end
  | Some (_, Err _) => (d, mkConsumer (c_session c) (c_search c) [] None true)
  | None => (d, c)
  end.

(** The (session, repository) pairs whose [INSERT] was attempted. *)
Record system : Type := mkSystem {
  sys_db : db;
  sys_consumers : list consumer;
  sys_inserted : list (string * string)
}.

Inductive cstep : system -> system -> Prop :=
| cstep_check : forall d pre c post ins,
    c_aborted c = false ->
    cstep (mkSystem d (pre ++ c :: post) ins)
          (mkSystem d (pre ++ consumer_check d c :: post) ins)
| cstep_insert : forall d pre c post ins r q,
    c_aborted c = false ->
    c_checked c = Some (r, Ok q) ->
    cstep (mkSystem d (pre ++ c :: post) ins)
          (mkSystem (fst (consumer_insert d c)) (pre ++ snd (consumer_insert d c) :: post)
                    (ins ++ [(c_session c, full_name r)]))
| cstep_analysis_fails : forall d pre c post ins r e,
    c_aborted c = false ->
    c_checked c = Some (r, Err e) ->
    cstep (mkSystem d (pre ++ c :: post) ins)
          (mkSystem d (pre ++ snd (consumer_insert d c) :: post) ins).

Inductive csteps : system -> system -> Prop :=
| csteps_refl : forall s, csteps s s
| csteps_step : forall s1 s2 s3, cstep s1 s2 -> csteps s2 s3 -> csteps s1 s3.

(** Rows of [repo_analysis] for one (session_id, repo_full_name). *)
Definition count_key (sid name : string) (rows : list analysis_row) : nat :=
  List.length (filter (fun r => String.eqb (ra_session_id r) sid
                                && String.eqb (ra_repo_full_name r) name) rows).

Definition keys_unique (d : db) : Prop :=
  forall sid name, (count_key sid name (repo_analysis_t d) <= 1)%nat.

(* ------------------------------------------------------------------ *)
(** ** Orderings *)

(** Insertion sort by non-increasing score; equal scores keep their input
    order.  Fed with its input reversed it is a second admissible engine for
    [ORDER BY relevancy_score DESC] (as a plan reading the table backwards). *)
Fixpoint insert_desc (x : analysis_row) (l : list analysis_row) : list analysis_row :=
  match l with
  | [] => [x]
  | y :: r => if score_ge x y then x :: l else y :: insert_desc x r
  end.

Fixpoint isort_desc (l : list analysis_row) : list analysis_row :=
  match l with
  | [] => []
  | x :: r => insert_desc x (isort_desc r)
  end.

Definition engine_forward : sql_engine := isort_desc.
Definition engine_backward : sql_engine := fun l => isort_desc (rev l).

(** The ranking as the spec words it: [relevancyScore] descending, ties by
    [analyzedAt] ascending, top 10. *)
Definition spec_before (a b : analysis_row) : bool :=
  negb (Qle_bool (ra_relevancy_score a) (ra_relevancy_score b))
  || (Qeq_bool (ra_relevancy_score a) (ra_relevancy_score b)
      && Z.leb (ra_analyzed_at a) (ra_analyzed_at b)).

Fixpoint spec_insert (x : analysis_row) (l : list analysis_row) : list analysis_row :=
  match l with
  | [] => [x]
  | y :: r => if spec_before x y then x :: l else y :: spec_insert x r
  end.

Fixpoint spec_sort (l : list analysis_row) : list analysis_row :=
  match l with
  | [] => []
  | x :: r => spec_insert x (spec_sort r)
  end.

Definition spec_ranked_results (sid : string) (rows : list analysis_row)
  : list analysis_row :=
  firstn 10 (spec_sort (filter (fun r => String.eqb (ra_session_id r) sid) rows)).

(** Tasks of a session still ['pending'] or ['running'] in [searches]. *)
Definition count_open_tasks (sid : string) (w : world) : nat :=
  List.length (filter (fun r => String.eqb (sr_session_id r) sid
                                && match sr_status r with
                                   | StPending | StRunning => true
                                   | _ => false
                                   end) (searches_t (w_db w))).

Definition search_status_of (searchId : Z) (w : world) : option search_status :=
  match find (fun r => Z.eqb (sr_id r) searchId) (searches_t (w_db w)) with
  | Some r => Some (sr_status r)
  | None => None
  end.

(* ------------------------------------------------------------------ *)
(** ** Concrete inputs *)

Definition empty_db : db := mkDB [] [] [] 0 0 0 100.

Definition w_empty : world := mkWorld empty_db (fun _ => None) [] [] [].

(** A generator binding whose first call would return [text] and whose
    structuring call would throw. *)
Definition gen_raw (text : string) : GeneratorAI :=
  mkGeneratorAI (fun _ => AIReturns (RespString text)) (fun _ => StructThrows).

Definition analyzer_down : AnalyzerAI :=
  mkAnalyzerAI (fun _ _ => AIThrows) (fun _ => StructThrows).

(** Search for "a" always throws; search for anything else answers 200 with
    no items. *)
Definition fetch_a_down (term : string) (_ : nat) : fetch_outcome :=
  if String.eqb term "a" then FetchThrows else FetchResponse 200 (Some []).

Definition env_ab : Env :=
  mkEnv "session-A" (gen_raw "a") analyzer_down fetch_a_down.

(** Durable Object storage where only the orchestrator named
    "orchestrator" holds a ['pendingSearches'] value, [v]. *)
Definition do_orchestrator (v : list Z) : string -> option (list Z) :=
  fun n => if String.eqb n orchestrator_name then Some v else None.

(** The stores below are written out row by row (as a seeded D1 database
    and Durable Object storage): [start] itself never gets past
    [generateSearchTerms].  Session-A with tasks "a" (id 1) and "b" (id 2),
    both outstanding. *)
Definition w_started_ab : world :=
  mkWorld (mkDB [mkSessionRow 1 "session-A" "find"]
                [mkSearchRow 1 "session-A" "a" StPending; mkSearchRow 2 "session-A" "b" StPending]
                [] 1 2 0 100)
          (do_orchestrator [1; 2])
          [(1, mkTaskMsg "session-A" 1 "a"); (2, mkTaskMsg "session-A" 2 "b")] [] [].

Definition msg_a : message := mkMessage 1 (mkTaskMsg "session-A" 1 "a").
Definition msg_b : message := mkMessage 2 (mkTaskMsg "session-A" 2 "b").


(** A session id [uuid]; the generator binding would answer "x". *)
Definition env_one (uuid : string) : Env :=
  mkEnv uuid (gen_raw "x") analyzer_down fetch_a_down.

(** Session "A" with one outstanding task "x" (id 1). *)
Definition w_started_A : world :=
  mkWorld (mkDB [mkSessionRow 1 "A" "p"] [mkSearchRow 1 "A" "x" StPending] [] 1 1 0 100)
          (do_orchestrator [1]) [(1, mkTaskMsg "A" 1 "x")] [] [].

(** The same task of session "A", with a second session "B", and the shared
    list stored empty. *)
Definition w_started_A_B : world :=
  mkWorld (mkDB [mkSessionRow 1 "A" "p"; mkSessionRow 2 "B" "q"]
                [mkSearchRow 1 "A" "x" StPending] [] 2 1 0 100)
          (do_orchestrator []) [(1, mkTaskMsg "A" 1 "x")] [] [].

Definition repo_x : repo := mkRepo "o/x" "https://github.com/o/x" "x".
Definition repo_new : repo := mkRepo "o/new" "https://github.com/o/new" "new".

(** An analyzer whose reasoning returns [text] and whose structuring call
    returns [s2]. *)
Definition analyzer_with (text : string) (s2 : structured_call) : AnalyzerAI :=
  mkAnalyzerAI (fun _ _ => AIReturns (RespString text)) (fun _ => s2).


Fixpoint count_fetches (t : list event) : nat :=
  match t with
  | [] => 0
  | EvFetch _ _ :: r => S (count_fetches r)
  | EvSleep _ :: r => count_fetches r
  end.

(** Rows of [repo_analysis] in a world. *)
Definition rows_of (w : world) : list analysis_row := repo_analysis_t (w_db w).

(** [new] is [old] followed by rows of session [sid] and search [id], each
    for a repository that had no row of [sid] in [old] and carrying the
    score [analyzeRepository] gives that repository with the analyzer [ai]
    and the term [term]. *)
Definition rows_extend (ai : AnalyzerAI) (term sid : string) (id : Z)
  (old new : list analysis_row) : Prop :=
  exists added, new = (old ++ added)%list /\
    Forall (fun x => ra_session_id x = sid /\ ra_search_id x = id /\
                     analysis_exists sid (ra_repo_full_name x) old = false /\
                     analyzeRepository ai
                       (mkRepo (ra_repo_full_name x) (ra_repo_url x) (ra_description x))
                       term = Ok (ra_relevancy_score x)) added.

(** Two consumers of session "S" surfacing the same repository. *)
Definition racer (searchId : Z) : consumer :=
  mkConsumer "S" searchId [(repo_x, Ok (1 # 2)%Q)] None false.

Definition race_start : system := mkSystem empty_db [racer 1; racer 2] [].

(** Both pass the existence check, then both insert: the second insert hits
    the constraint. *)
Definition race_end : system :=
  let c1 := consumer_check empty_db (racer 1) in
  let c2 := consumer_check empty_db (racer 2) in
  let (d1, c1') := consumer_insert empty_db c1 in
  let (d2, c2') := consumer_insert d1 c2 in
  mkSystem d2 [c1'; c2'] [("S", "o/x"); ("S", "o/x")].

(** A replay: task 1 of session "A" (term "x") first completes with no
    candidate; the redelivered message then meets a search answering a new
    repository. *)
Definition msg_x : message := mkMessage 7 (mkTaskMsg "A" 1 "x").

Definition w_x_done : world := snd (process_message (env_one "A") msg_x w_started_A).

Definition env_replay : Env :=
  mkEnv "A" (gen_raw "x") (analyzer_with "0.5" StructThrows)
        (fun _ _ => FetchResponse 200 (Some [repo_new])).

Definition w_x_replayed : world := snd (process_message env_replay msg_x w_x_done).

(** Two rows of session "S" with equal scores, analysed at 100 and 200. *)
Definition row_early : analysis_row :=
  mkAnalysisRow 1 "S" 1 "o/a" "https://github.com/o/a" "a" (1 # 2)%Q 100.
Definition row_late : analysis_row :=
  mkAnalysisRow 2 "S" 1 "o/b" "https://github.com/o/b" "b" (1 # 2)%Q 200.

Definition w_tie : world :=
  mkWorld (mkDB [] [] [row_early; row_late] 0 0 2 200) (fun _ => Some []) [] [] [].

(** A structuring answer that satisfies the declared schema's types but not
    its [maximum: 1]. *)
Definition struct_too_high : structured_call :=
  StructParsed (JObj [("relevancyScore", JNum (3 # 2)%Q); ("reasoning", JStr "very relevant")]).

(** A structuring answer that lacks [relevancyScore]. *)
Definition struct_wrong_key : structured_call :=
  StructParsed (JObj [("score", JNum (8 # 10)%Q)]).

(* ------------------------------------------------------------------ *)
(** ** [requireApiKey] (src/src/index.ts), mounted on [/api/*], [/mcp/*]
    and [/a2a/*] *)

(** What the middleware does: [await next()] or answer [c.json(..., status)]. *)
Inductive mw_outcome : Type :=
| MwNext
| MwJson (status : Z).

(** JavaScript truthiness of a string that may be [undefined]. *)
Definition js_truthy_str (o : option string) : bool :=
  match o with
  | Some s => negb (String.eqb s "")
  | None => false
  end.

(** [undefined]-aware strict equality [===] of two strings. *)
Definition opt_str_eqb (a b : option string) : bool :=
  match a, b with
  | Some x, Some y => String.eqb x y
  | None, None => true
  | _, _ => false
  end.

(** [authorization?.startsWith('Bearer ') ? authorization?.slice('Bearer '.length)
    : undefined] *)
Definition bearer_token (authorization : option string) : option string :=
  match authorization with
  | Some a =>
      if starts_with "Bearer " a
      then Some (substring (String.length "Bearer ") (String.length a) a)
      else None
  | None => None
  end.

(** [header n] is [c.req.header(n)] for the lower-case names the code uses;
    [WORKER_API_KEY] is [c.env.WORKER_API_KEY]. *)
Definition requireApiKey (method : string) (WORKER_API_KEY : option string)
  (header : string -> option string) : mw_outcome :=
  if String.eqb method "OPTIONS" then MwNext
  else if negb (js_truthy_str WORKER_API_KEY) then MwJson 500
  else
    let providedApiKey :=
      if js_truthy_str (header "x-api-key") then header "x-api-key"
      else bearer_token (header "authorization") in
    if negb (opt_str_eqb providedApiKey WORKER_API_KEY) then MwJson 401
    else MwNext.

(* ------------------------------------------------------------------ *)
(** ** The older [analyzeRepository] (src/unnamed/part_008) *)

(** [Math.max(a, b)] *)
Definition math_max (a b : js_number) : js_number :=
  match a, b with
  | JsNaN, _ | _, JsNaN => JsNaN
  | JsPosInf, _ | _, JsPosInf => JsPosInf
  | JsNegInf, x | x, JsNegInf => x
  | JsFinite p, JsFinite q => if Qle_bool p q then JsFinite q else JsFinite p
  end.

(** [Math.min(a, b)] *)
Definition math_min (a b : js_number) : js_number :=
  match a, b with
  | JsNaN, _ | _, JsNaN => JsNaN
  | JsNegInf, _ | _, JsNegInf => JsNegInf
  | JsPosInf, x | x, JsPosInf => x
  | JsFinite p, JsFinite q => if Qle_bool p q then JsFinite p else JsFinite q
  end.

(** What [ai.run('@cf/meta/llama-2-7b-chat-int8', ...)] settles to: a
    rejection, a string, or an object (or [null]) with its [response]
    property (a string or absent) and its [JSON.stringify] text. *)
Inductive ai_run_outcome : Type :=
| RunThrows
| RunString (s : string)
| RunObject (response : option string) (stringified : string).

(** [extractAiText(response)] of part_008 (the object case is reached only
    when the AI call resolved). *)
Definition extractAiText (r : ai_run_outcome) : string :=
  match r with
  | RunString s => s
  | RunObject resp stringified =>
      if js_truthy_str resp then match resp with Some t => t | None => "" end
      else stringified
  | RunThrows => ""
  end.

(** [analyzeRepository] of part_008, for any [Number.parseFloat]. *)
Definition analyzeRepository_v008 (parseFloat : string -> js_number)
  (response : ai_run_outcome) : result js_number :=
  match response with
  | RunThrows => Err AIError
  | _ =>
      let score := parseFloat (extractAiText response) in
      match score with
      | JsNaN => Ok (JsFinite 0)
      | _ => Ok (math_min (math_max score (JsFinite 0)) (JsFinite 1))
      end
  end.

(* ------------------------------------------------------------------ *)
(** ** Traces, sequences of requests *)

(** Total time slept, in ms, in a trace. *)
Fixpoint total_sleep (t : list event) : Z :=
  match t with
  | [] => 0
  | EvSleep ms :: r => ms + total_sleep r
  | EvFetch _ _ :: r => total_sleep r
  end.

(** [workflowComplete] on the shared orchestrator for each id of [ids], in
    order. *)
Definition complete_all (ids : list Z) : M unit :=
  for_of ids (workflowComplete orchestrator_name).

(** An attempt that does not return: it throws, or answers a status other
    than 200. *)
Definition attempt_failed (o : fetch_outcome) : Prop :=
  o = FetchThrows \/ exists st items, o = FetchResponse st items /\ st <> 200.

(** The events of a failed attempt [i] that is not the last one: the fetch,
    then, when it threw, the sleep of [1000 * (i + 1)] ms. *)
Definition failed_attempt_events (term : string) (i : nat) (o : fetch_outcome)
  : list event :=
  EvFetch term i :: match o with
                    | FetchThrows => [EvSleep (1000 * Z.of_nat (i + 1))]
                    | FetchResponse _ _ => []
                    end.

(** The requests that reach the shared orchestrator or the tables:
    [POST /session] ([start]), a [queue] batch, and a [workflowComplete]
    call.  Each runs to its end or to its rejection; a rejection does not
    stop the next request. *)
Inductive request : Type :=
| ReqStart (env : Env) (prompt : string)
| ReqQueue (env : Env) (batch : list message)
| ReqComplete (searchId : Z).

Definition run_request (r : request) : M unit :=
  match r with
  | ReqStart env prompt => _ <- session_api_start env prompt ;; ret tt
  | ReqQueue env batch => queue env batch
  | ReqComplete id => workflowComplete orchestrator_name id
  end.

Fixpoint run_requests (rs : list request) (w : world) : world :=
  match rs with
  | [] => w
  | r :: rest => run_requests rest (snd (run_request r w))
  end.

(** Concrete inputs for the extra properties. *)
Definition headers_bearer (token : string) (n : string) : option string :=
  if String.eqb n "authorization" then Some ("Bearer " ++ token) else None.

(** Search whose first attempt throws and whose second answers 200. *)
Definition fetch_flaky (term : string) (i : nat) : fetch_outcome :=
  match i with
  | O => FetchThrows
  | _ => FetchResponse 200 (Some [repo_x])
  end.

Definition env_flaky : Env := mkEnv "F" (gen_raw "x") analyzer_down fetch_flaky.

(** Search whose first attempt answers 503 and whose next ones throw. *)
Definition fetch_mixed (term : string) (i : nat) : fetch_outcome :=
  match i with
  | O => FetchResponse 503 None
  | _ => FetchThrows
  end.

Definition env_mixed : Env := mkEnv "M" (gen_raw "x") analyzer_down fetch_mixed.



(** Search that always answers 503. *)
Definition env_503 : Env :=
  mkEnv "U" (gen_raw "x") analyzer_down (fun _ _ => FetchResponse 503 None).

(* ================================================================== *)
(** * Proofs *)

(** ** Start *)


(** [Start] as it runs: the session insert, then the TypeError of
    [generateSearchTerms]. *)
Lemma session_api_start_fails env prompt w :
  session_api_start env prompt w =
  match insert_session (random_uuid env) prompt (w_db w) with
  | Ok d => (Err TypeError, set_db d w)
  | Err e => (Err e, w)
  end.
Proof.
  unfold session_api_start, start, bind, db_run.
  destruct (insert_session (random_uuid env) prompt (w_db w)); reflexivity.
Qed.


(** [Start] leaves the world as it was, or only inserts into [sessions]. *)
Lemma session_api_start_frame env prompt w :
  snd (session_api_start env prompt w) = w \/
  exists d, snd (session_api_start env prompt w) = set_db d w /\
            repo_analysis_t d = repo_analysis_t (w_db w).
Proof.
  rewrite session_api_start_fails. unfold insert_session.
  destruct (existsb _ _); [left; reflexivity|]. right. eexists; split; reflexivity.
Qed.







Lemma engine_forward_sorted_perm : sql_order_ok engine_forward.
Proof.
  assert (Hp : forall x l, Permutation (insert_desc x l) (x :: l)).
  { intros x l; induction l as [|y l IH]; simpl; [auto|].
    destruct (score_ge x y); [auto|].
    eapply perm_trans; [apply perm_skip; exact IH | apply perm_swap]. }
  assert (Htot : forall a b, score_ge a b = false -> score_ge b a = true).
  { unfold score_ge; intros a b H.
    apply Qle_bool_iff. apply Qlt_le_weak. apply Qnot_le_lt.
    intros C. apply Qle_bool_iff in C. congruence. }
  assert (Hs : forall x l, Sorted (fun a b => score_ge a b = true) l ->
                 Sorted (fun a b => score_ge a b = true) (insert_desc x l)).
  { intros x l H; induction H as [|y l Hl IH Hhd]; simpl; [auto|].
    destruct (score_ge x y) eqn:E; [constructor; auto|].
    constructor; [exact IH|].
    destruct l as [|z l]; simpl; [constructor; auto|].
    destruct (score_ge x z); constructor; auto.
    inversion Hhd; auto. }
  intros l; unfold engine_forward; split.
  - induction l as [|x l IH]; simpl; [auto|].
    eapply perm_trans; [apply Hp | apply perm_skip; exact IH].
  - induction l as [|x l IH]; simpl; [constructor|]. apply Hs; exact IH.
Qed.


(** ** GetStatus and the shared outstanding list *)

(** C4 (counterexample). Session "A" has its task 1 still ['pending'] in
    [searches], while the stored shared list is empty: [GetStatus("A")]
    answers completed. *)
Lemma getStatus_vs_open_tasks_counterexample :
  ~ (st_status (session_status_api engine_forward "A" w_started_A_B) = Pending <->
     (count_open_tasks "A" w_started_A_B > 0)%nat).
Proof.
  assert (E1 : st_status (session_status_api engine_forward "A" w_started_A_B) = Completed)
    by (vm_compute; reflexivity).
  assert (E2 : count_open_tasks "A" w_started_A_B = 1%nat) by (vm_compute; reflexivity).
  rewrite E1, E2. intros [_ H]. discriminate (H ltac:(lia)).
Qed.

(** C4 (amended). [GetStatus] answers pending exactly when the single
    ['pendingSearches'] list of the orchestrator named "orchestrator" (the
    one every caller uses) is non-empty, whatever session it is asked
    about. *)
Theorem getStatus_pending_iff_shared_list order_desc sid w :
  st_status (session_status_api order_desc sid w) = Pending <->
  exists id ids, w_do w orchestrator_name = Some (id :: ids).
Proof.
  unfold session_status_api, getStatus.
  destruct (w_do w orchestrator_name) as [[|id ids]|]; simpl; split.
  - discriminate.
  - intros (? & ? & H); discriminate.
  - intros _; eauto.
  - reflexivity.
  - discriminate.
  - intros (? & ? & H); discriminate.
Qed.


(** ** Search with retry and the consumer's failure path *)

Lemma search_loop_trace_only env term retries : forall n i w,
  exists t, snd (search_loop env term retries i n w) =
            mkWorld (w_db w) (w_do w) (w_workflows w) (w_acked w) (w_trace w ++ t) /\
            (count_fetches t <= n)%nat.
Proof.
  induction n as [|n IH]; intros i [d dof wf ack tr].
  - exists []; simpl; rewrite app_nil_r; split; [reflexivity | lia].
  - cbn [search_loop]. unfold bind at 1, modify.
    destruct (search_fetch env term i) as [|st items] eqn:Ef.
    + destruct (Nat.eqb i (retries - 1)).
      * exists [EvFetch term i]; simpl; split; [reflexivity | lia].
      * unfold bind at 1.
        destruct (IH (S i) (emit (EvSleep (1000 * Z.of_nat (i + 1))) (emit (EvFetch term i)
                   (mkWorld d dof wf ack tr)))) as (t & Et & Hc).
        exists (EvFetch term i :: EvSleep (1000 * Z.of_nat (i + 1)) :: t).
        simpl in *. rewrite Et, <- !app_assoc. split; [reflexivity | lia].
    + destruct (Z.eqb st 200).
      * exists [EvFetch term i]; simpl; split; [reflexivity | lia].
      * destruct (IH (S i) (emit (EvFetch term i) (mkWorld d dof wf ack tr))) as (t & Et & Hc).
        exists (EvFetch term i :: t).
        simpl in *. rewrite Et, <- !app_assoc. split; [reflexivity | lia].
Qed.

(** A failed attempt that is not the last one goes on to the next attempt,
    having recorded [failed_attempt_events]. *)
Lemma search_loop_failed_step env term r i n w :
  attempt_failed (search_fetch env term i) -> (i < r - 1)%nat ->
  exists w1, search_loop env term r i (S n) w = search_loop env term r (S i) n w1 /\
    w_trace w1 = (w_trace w ++ failed_attempt_events term i (search_fetch env term i))%list /\
    w_db w1 = w_db w /\ w_do w1 = w_do w /\ w_workflows w1 = w_workflows w /\
    w_acked w1 = w_acked w.
Proof.
  intros Hf Hi. cbn [search_loop]. unfold bind at 1, modify.
  destruct Hf as [E|(st & it & E & Hst)]; rewrite E.
  - assert (Ei : Nat.eqb i (r - 1) = false) by (apply Nat.eqb_neq; lia).
    rewrite Ei. unfold bind at 1, modify.
    eexists; split; [reflexivity|]. simpl. rewrite <- app_assoc. repeat split; reflexivity.
  - apply Z.eqb_neq in Hst. rewrite Hst.
    eexists; split; [reflexivity|]. repeat split; reflexivity.
Qed.

Lemma search_loop_first_fetch env term r i n w :
  exists t, w_trace (snd (search_loop env term r i (S n) w)) =
            (w_trace w ++ EvFetch term i :: t)%list.
Proof.
  cbn [search_loop]. unfold bind at 1, modify.
  destruct (search_fetch env term i) as [|st items].
  - destruct (Nat.eqb i (r - 1)).
    + exists []; reflexivity.
    + unfold bind at 1.
      destruct (search_loop_trace_only env term r n (S i)
                  (emit (EvSleep (1000 * Z.of_nat (i + 1))) (emit (EvFetch term i) w)))
        as (t & Et & _).
      exists (EvSleep (1000 * Z.of_nat (i + 1)) :: t).
      unfold modify; rewrite Et; simpl. rewrite <- !app_assoc. reflexivity.
  - destruct (Z.eqb st 200).
    + exists []; reflexivity.
    + destruct (search_loop_trace_only env term r n (S i) (emit (EvFetch term i) w))
        as (t & Et & _).
      exists t. rewrite Et; simpl. rewrite <- app_assoc. reflexivity.
Qed.

(** When attempts [i0 .. i] all fail and [i] is not the last, the trace shows
    attempt [i], its sleep exactly when it threw, then attempt [i + 1]. *)
Lemma search_loop_segment env term r i : forall n i0 w,
  (i0 + n = r)%nat -> (i0 <= i)%nat -> (S i < r)%nat ->
  (forall j, (i0 <= j <= i)%nat -> attempt_failed (search_fetch env term j)) ->
  exists t1 t2, w_trace (snd (search_loop env term r i0 n w)) =
    (w_trace w ++ t1 ++ failed_attempt_events term i (search_fetch env term i)
              ++ EvFetch term (S i) :: t2)%list.
Proof.
  induction n as [|n IH]; intros i0 w Hr Hi Hs Hf; [lia|].
  destruct (search_loop_failed_step env term r i0 n w (Hf i0 ltac:(lia)) ltac:(lia))
    as (w1 & E & Ht & _).
  rewrite E.
  destruct (Nat.eq_dec i0 i) as [->|Hne].
  - destruct n as [|n]; [lia|].
    destruct (search_loop_first_fetch env term r (S i) n w1) as (t2 & Et).
    exists [], t2. rewrite Et, Ht, <- app_assoc. reflexivity.
  - destruct (IH (S i0) w1 ltac:(lia) ltac:(lia) Hs ltac:(intros j Hj; apply Hf; lia))
      as (t1 & t2 & Et).
    exists (failed_attempt_events term i0 (search_fetch env term i0) ++ t1)%list, t2.
    rewrite Et, Ht, <- !app_assoc. reflexivity.
Qed.

(** The first two attempts fail and the third throws: the error is rethrown
    after the three fetches and the sleeps of the throwing attempts. *)
Lemma search_third_attempt_throws env term w :
  attempt_failed (search_fetch env term 0) ->
  attempt_failed (search_fetch env term 1) ->
  search_fetch env term 2 = FetchThrows ->
  exists w', searchRepositoriesWithRetry env term 3 w = (Err FetchError, w') /\
    w_trace w' = (w_trace w ++ failed_attempt_events term 0 (search_fetch env term 0)
                           ++ failed_attempt_events term 1 (search_fetch env term 1)
                           ++ [EvFetch term 2])%list /\
    w_db w' = w_db w /\ w_do w' = w_do w /\ w_workflows w' = w_workflows w /\
    w_acked w' = w_acked w.
Proof.
  intros H0 H1 H2. unfold searchRepositoriesWithRetry.
  destruct (search_loop_failed_step env term 3 0 2 w H0 ltac:(lia))
    as (w1 & E1 & T1 & D1 & O1 & F1 & A1).
  destruct (search_loop_failed_step env term 3 1 1 w1 H1 ltac:(lia))
    as (w2 & E2 & T2 & D2 & O2 & F2 & A2).
  rewrite E1, E2. cbn [search_loop]. unfold bind at 1, modify. rewrite H2.
  eexists; split; [reflexivity|]. simpl.
  rewrite T2, T1, <- !app_assoc. repeat split; congruence.
Qed.

(** C1 (amended).  [searchRepositoriesWithRetry(term, 3)] makes at most three
    fetches whatever they return; an attempt [i] that throws and is not the
    last is followed by a sleep of [1000 * (i + 1)] ms before attempt
    [i + 1], an attempt answering a status other than 200 by none.  When
    the first two attempts fail (by a throw or a non-200 answer) and the
    third throws, the error is rethrown.  The [queue] handler does not
    catch it: the message is not acknowledged, the task's [searches] row
    keeps its status, [TaskComplete] is not called (the outstanding list is
    unchanged) and [GetStatus] answers as before for every session. *)
Theorem search_exhaustion_leaves_task_open env msg w :
  attempt_failed (search_fetch env (msg_search_term (m_body msg)) 0) ->
  attempt_failed (search_fetch env (msg_search_term (m_body msg)) 1) ->
  search_fetch env (msg_search_term (m_body msg)) 2 = FetchThrows ->
  (forall env' term w0, exists t,
      snd (searchRepositoriesWithRetry env' term 3 w0) =
      mkWorld (w_db w0) (w_do w0) (w_workflows w0) (w_acked w0) (w_trace w0 ++ t) /\
      (count_fetches t <= 3)%nat) /\
  (forall env' term w0 i, (i < 2)%nat ->
      (forall j, (j <= i)%nat -> attempt_failed (search_fetch env' term j)) ->
      exists t1 t2, w_trace (snd (searchRepositoriesWithRetry env' term 3 w0)) =
        (w_trace w0 ++ t1 ++ failed_attempt_events term i (search_fetch env' term i)
                   ++ EvFetch term (S i) :: t2)%list) /\
  fst (searchRepositoriesWithRetry env (msg_search_term (m_body msg)) 3 w) = Err FetchError /\
  fst (process_message env msg w) = Err FetchError /\
  w_trace (snd (process_message env msg w)) =
    (w_trace w ++ failed_attempt_events (msg_search_term (m_body msg)) 0
                   (search_fetch env (msg_search_term (m_body msg)) 0)
              ++ failed_attempt_events (msg_search_term (m_body msg)) 1
                   (search_fetch env (msg_search_term (m_body msg)) 1)
              ++ [EvFetch (msg_search_term (m_body msg)) 2])%list /\
  w_db (snd (process_message env msg w)) = w_db w /\
  w_do (snd (process_message env msg w)) = w_do w /\
  w_acked (snd (process_message env msg w)) = w_acked w /\
  (forall order_desc sid,
      session_status_api order_desc sid (snd (process_message env msg w)) =
      session_status_api order_desc sid w).
Proof.
  intros H0 H1 H2.
  split; [intros; apply search_loop_trace_only|].
  split.
  { intros env' term w0 i Hi Hf. unfold searchRepositoriesWithRetry.
    apply search_loop_segment; [lia | lia | lia | intros j Hj; apply Hf; lia]. }
  destruct (search_third_attempt_throws env (msg_search_term (m_body msg)) w H0 H1 H2)
    as (w' & E & T & D & O & _ & A).
  assert (Ep : process_message env msg w = (Err FetchError, w')).
  { unfold process_message, bind at 1. rewrite E. reflexivity. }
  rewrite E, Ep. cbn [fst snd].
  split; [reflexivity|]. split; [reflexivity|].
  split; [exact T|]. split; [exact D|]. split; [exact O|]. split; [exact A|].
  intros od sid. unfold session_status_api, getStatus. rewrite O, D. reflexivity.
Qed.

Lemma search_exhaustion_leaves_task_open_witness :
  attempt_failed (search_fetch env_mixed (msg_search_term (m_body msg_a)) 0) /\
  attempt_failed (search_fetch env_mixed (msg_search_term (m_body msg_a)) 1) /\
  search_fetch env_mixed (msg_search_term (m_body msg_a)) 2 = FetchThrows /\
  ((forall env' term w0, exists t,
      snd (searchRepositoriesWithRetry env' term 3 w0) =
      mkWorld (w_db w0) (w_do w0) (w_workflows w0) (w_acked w0) (w_trace w0 ++ t) /\
      (count_fetches t <= 3)%nat) /\
   (forall env' term w0 i, (i < 2)%nat ->
      (forall j, (j <= i)%nat -> attempt_failed (search_fetch env' term j)) ->
      exists t1 t2, w_trace (snd (searchRepositoriesWithRetry env' term 3 w0)) =
        (w_trace w0 ++ t1 ++ failed_attempt_events term i (search_fetch env' term i)
                   ++ EvFetch term (S i) :: t2)%list) /\
   fst (searchRepositoriesWithRetry env_mixed (msg_search_term (m_body msg_a)) 3 w_started_ab)
     = Err FetchError /\
   fst (process_message env_mixed msg_a w_started_ab) = Err FetchError /\
   w_trace (snd (process_message env_mixed msg_a w_started_ab)) =
     (w_trace w_started_ab ++ failed_attempt_events (msg_search_term (m_body msg_a)) 0
                    (search_fetch env_mixed (msg_search_term (m_body msg_a)) 0)
               ++ failed_attempt_events (msg_search_term (m_body msg_a)) 1
                    (search_fetch env_mixed (msg_search_term (m_body msg_a)) 1)
               ++ [EvFetch (msg_search_term (m_body msg_a)) 2])%list /\
   w_db (snd (process_message env_mixed msg_a w_started_ab)) = w_db w_started_ab /\
   w_do (snd (process_message env_mixed msg_a w_started_ab)) = w_do w_started_ab /\
   w_acked (snd (process_message env_mixed msg_a w_started_ab)) = w_acked w_started_ab /\
   (forall order_desc sid,
       session_status_api order_desc sid (snd (process_message env_mixed msg_a w_started_ab)) =
       session_status_api order_desc sid w_started_ab)).
Proof.
  assert (H0 : attempt_failed (search_fetch env_mixed (msg_search_term (m_body msg_a)) 0)).
  { right. exists 503, None. split; [reflexivity | discriminate]. }
  assert (H1 : attempt_failed (search_fetch env_mixed (msg_search_term (m_body msg_a)) 1))
    by (left; reflexivity).
  assert (H2 : search_fetch env_mixed (msg_search_term (m_body msg_a)) 2 = FetchThrows)
    by reflexivity.
  split; [exact H0|]. split; [exact H1|]. split; [exact H2|].
  exact (search_exhaustion_leaves_task_open env_mixed msg_a w_started_ab H0 H1 H2).
Defined.

(** C1 (counterexample).  Session-A has tasks "a" (id 1) and "b" (id 2); the
    search for "a" throws on all three attempts.  After the batch [b; a], task
    1 is still ['pending'], its message is not acknowledged, and [GetStatus]
    still answers pending: the session never reaches completed. *)
Lemma search_exhaustion_session_stuck_counterexample :
  search_status_of 1 (snd (queue env_ab [msg_b; msg_a] w_started_ab)) = Some StPending /\
  ~ In 1 (w_acked (snd (queue env_ab [msg_b; msg_a] w_started_ab))) /\
  st_status (session_status_api engine_forward "session-A"
               (snd (queue env_ab [msg_b; msg_a] w_started_ab))) = Pending.
Proof.
  split; [vm_compute; reflexivity|]. split; [|vm_compute; reflexivity].
  vm_compute. intros [H|[]]. discriminate.
Qed.

(** ** The repo_analysis table *)

Lemma count_key_app sid name a b :
  count_key sid name (a ++ b) = (count_key sid name a + count_key sid name b)%nat.
Proof. unfold count_key. rewrite filter_app, length_app. reflexivity. Qed.

Lemma analysis_exists_count sid name rows :
  analysis_exists sid name rows = false <-> count_key sid name rows = 0%nat.
Proof.
  unfold analysis_exists, count_key.
  induction rows as [|r rows IH]; simpl; [tauto|].
  destruct (String.eqb (ra_session_id r) sid && String.eqb (ra_repo_full_name r) name);
    simpl; [split; discriminate | exact IH].
Qed.

Lemma analysis_exists_count_pos sid name rows :
  analysis_exists sid name rows = true -> (1 <= count_key sid name rows)%nat.
Proof.
  intros H. destruct (count_key sid name rows) eqn:E; [|lia].
  apply analysis_exists_count in E. congruence.
Qed.

Lemma insert_analysis_ok sid id r q d d' :
  insert_analysis sid id r q d = Ok d' ->
  analysis_exists sid (full_name r) (repo_analysis_t d) = false /\
  repo_analysis_t d' =
    (repo_analysis_t d ++
       [mkAnalysisRow (seq_analysis d + 1) sid id (full_name r) (html_url r)
                      (description r) q (current_timestamp d)])%list.
Proof.
  unfold insert_analysis.
  destruct (analysis_exists sid (full_name r) (repo_analysis_t d)); [discriminate|].
  intros H; injection H as <-. split; reflexivity.
Qed.

Lemma insert_analysis_err sid id r q d e :
  insert_analysis sid id r q d = Err e ->
  analysis_exists sid (full_name r) (repo_analysis_t d) = true.
Proof.
  unfold insert_analysis.
  destruct (analysis_exists sid (full_name r) (repo_analysis_t d)); [auto | discriminate].
Qed.

Lemma count_key_single sid name x :
  count_key sid name [x] =
  if String.eqb (ra_session_id x) sid && String.eqb (ra_repo_full_name x) name then 1%nat else 0%nat.
Proof. unfold count_key; simpl; destruct (_ && _); reflexivity. Qed.

(** An accepted insert keeps one row per key and adds one to its own key. *)
Lemma insert_analysis_counts sid id r q d d' :
  insert_analysis sid id r q d = Ok d' ->
  count_key sid (full_name r) (repo_analysis_t d') = 1%nat /\
  (forall s k, count_key s k (repo_analysis_t d) <= count_key s k (repo_analysis_t d'))%nat /\
  (keys_unique d -> keys_unique d').
Proof.
  intros H. destruct (insert_analysis_ok _ _ _ _ _ _ H) as [Hn Hr].
  apply analysis_exists_count in Hn.
  rewrite Hr. split; [|split].
  - rewrite count_key_app, count_key_single, Hn. simpl.
    rewrite !String.eqb_refl. reflexivity.
  - intros s k. rewrite count_key_app. lia.
  - intros Hu s k. unfold keys_unique in *. rewrite Hr, count_key_app, count_key_single. simpl.
    destruct (String.eqb sid s) eqn:E1; destruct (String.eqb (full_name r) k) eqn:E2; simpl;
      try (specialize (Hu s k); lia).
    apply String.eqb_eq in E1, E2. subst. rewrite Hn. lia.
Qed.

Definition inserted_once (s : system) : Prop :=
  forall a, In a (sys_inserted s) ->
            count_key (fst a) (snd a) (repo_analysis_t (sys_db s)) = 1%nat.

Lemma cstep_invariant s s' :
  cstep s s' -> keys_unique (sys_db s) -> inserted_once s ->
  keys_unique (sys_db s') /\ inserted_once s'.
Proof.
  intros Hs Hu Hi. destruct Hs as [d pre c post ins Ha
                                  | d pre c post ins r q Ha Hc
                                  | d pre c post ins r e Ha Hc]; simpl in *.
  - split; assumption.
  - unfold consumer_insert. rewrite Hc. unfold inserted_once in *; simpl in *.
    destruct (insert_analysis (c_session c) (c_search c) r q d) as [d'|e] eqn:Ei; simpl.
    + destruct (insert_analysis_counts _ _ _ _ _ _ Ei) as (H1 & Hmono & Hu').
      split; [apply Hu'; exact Hu|].
      intros a Hin. apply in_app_or in Hin as [Hin|[<-|[]]]; [|exact H1].
      specialize (Hi a Hin). specialize (Hmono (fst a) (snd a)).
      specialize (Hu' Hu (fst a) (snd a)). lia.
    + split; [exact Hu|].
      intros a Hin. apply in_app_or in Hin as [Hin|[<-|[]]]; [exact (Hi a Hin)|].
      apply insert_analysis_err in Ei. apply analysis_exists_count_pos in Ei.
      specialize (Hu (c_session c) (full_name r)). simpl. lia.
  - unfold consumer_insert. rewrite Hc. simpl. split; assumption.
Qed.

(** C3.  Whatever the interleaving of concurrent consumers (existence
    check, analysis and insert of each candidate running at arbitrary
    points between the others' steps), [repo_analysis] never holds two rows
    for one (session_id, repo_full_name), and every candidate whose insert
    was attempted has exactly one row: the losing insert of a race is
    rejected by [UNIQUE (session_id, repo_full_name)]. *)
Theorem analysis_rows_unique_under_interleaving s s' :
  csteps s s' ->
  keys_unique (sys_db s) ->
  (forall a, In a (sys_inserted s) ->
             count_key (fst a) (snd a) (repo_analysis_t (sys_db s)) = 1%nat) ->
  keys_unique (sys_db s') /\
  (forall a, In a (sys_inserted s') ->
             count_key (fst a) (snd a) (repo_analysis_t (sys_db s')) = 1%nat).
Proof.
  intros H. induction H as [s|s1 s2 s3 Hst _ IH]; intros Hu Hi.
  - split; assumption.
  - destruct (cstep_invariant _ _ Hst Hu Hi) as [Hu2 Hi2]. apply IH; assumption.
Qed.

Lemma analysis_rows_unique_under_interleaving_witness :
  csteps race_start race_end /\
  keys_unique (sys_db race_start) /\
  (forall a, In a (sys_inserted race_start) ->
             count_key (fst a) (snd a) (repo_analysis_t (sys_db race_start)) = 1%nat) /\
  (keys_unique (sys_db race_end) /\
   (forall a, In a (sys_inserted race_end) ->
              count_key (fst a) (snd a) (repo_analysis_t (sys_db race_end)) = 1%nat)).
Proof.
  assert (Hrun : csteps race_start race_end).
  { eapply csteps_step; [apply (cstep_check empty_db [] (racer 1) [racer 2] []); reflexivity|].
    eapply csteps_step;
      [apply (cstep_check empty_db [consumer_check empty_db (racer 1)] (racer 2) [] []);
       reflexivity|].
    eapply csteps_step;
      [apply (cstep_insert empty_db [] (consumer_check empty_db (racer 1))
                [consumer_check empty_db (racer 2)] [] repo_x (1 # 2)%Q); reflexivity|].
    eapply csteps_step;
      [apply (cstep_insert _ [snd (consumer_insert empty_db (consumer_check empty_db (racer 1)))]
                (consumer_check empty_db (racer 2)) [] _ repo_x (1 # 2)%Q); reflexivity|].
    apply csteps_refl. }
  assert (Hu : keys_unique (sys_db race_start)) by (intros s k; unfold count_key; simpl; lia).
  assert (Hi : forall a, In a (sys_inserted race_start) ->
             count_key (fst a) (snd a) (repo_analysis_t (sys_db race_start)) = 1%nat)
    by (intros a []).
  split; [exact Hrun|]. split; [exact Hu|]. split; [exact Hi|].
  exact (analysis_rows_unique_under_interleaving _ _ Hrun Hu Hi).
Defined.

(** ** Redelivery *)

Lemma bind_ok {A B} (m : M A) (k : A -> M B) w a w1 :
  m w = (Ok a, w1) -> bind m k w = k a w1.
Proof. intros H; unfold bind; rewrite H; reflexivity. Qed.

Lemma bind_err {A B} (m : M A) (k : A -> M B) w e w1 :
  m w = (Err e, w1) -> bind m k w = (Err e, w1).
Proof. intros H; unfold bind; rewrite H; reflexivity. Qed.

Lemma rows_extend_refl ai term sid id rows : rows_extend ai term sid id rows rows.
Proof. exists []; rewrite app_nil_r; split; auto. Qed.

Lemma analysis_exists_app sid name a b :
  analysis_exists sid name (a ++ b) = analysis_exists sid name a || analysis_exists sid name b.
Proof. unfold analysis_exists. apply existsb_app. Qed.

Lemma rows_extend_trans ai term sid id a b c :
  rows_extend ai term sid id a b -> rows_extend ai term sid id b c ->
  rows_extend ai term sid id a c.
Proof.
  intros (x & -> & Hx) (y & -> & Hy).
  exists (x ++ y)%list; split; [symmetry; apply app_assoc|].
  apply Forall_app; split; [exact Hx|].
  eapply Forall_impl; [|exact Hy].
  intros r (H1 & H2 & H3 & H4); repeat split; auto.
  rewrite analysis_exists_app in H3. apply orb_false_iff in H3. tauto.
Qed.

Lemma repo_eta r : mkRepo (full_name r) (html_url r) (description r) = r.
Proof. destruct r; reflexivity. Qed.

Lemma analyze_candidate_unfold env sid id term r w :
  analyze_candidate env sid id term r w =
  (if analysis_exists sid (full_name r) (rows_of w) then ret tt
   else bind (lift (analyzeRepository (analyzer_ai env) r term))
             (fun score => db_run (insert_analysis sid id r score))) w.
Proof. reflexivity. Qed.

Lemma analyze_candidate_ext env sid id term r w :
  rows_extend (analyzer_ai env) term sid id (rows_of w)
    (rows_of (snd (analyze_candidate env sid id term r w))) /\
  w_acked (snd (analyze_candidate env sid id term r w)) = w_acked w /\
  w_do (snd (analyze_candidate env sid id term r w)) = w_do w.
Proof.
  rewrite analyze_candidate_unfold.
  destruct (analysis_exists sid (full_name r) (rows_of w)) eqn:Ex.
  { simpl; repeat split; auto using rows_extend_refl. }
  unfold bind, lift.
  destruct (analyzeRepository (analyzer_ai env) r term) as [q|e] eqn:Ea.
  2: { simpl; repeat split; auto using rows_extend_refl. }
  unfold ret, db_run.
  destruct (insert_analysis sid id r q (w_db w)) as [d'|e] eqn:Ei.
  2: { simpl; repeat split; auto using rows_extend_refl. }
  destruct (insert_analysis_ok _ _ _ _ _ _ Ei) as [Hn Hr].
  simpl. repeat split; auto.
  eexists; split; [unfold rows_of; simpl; exact Hr|].
  constructor; [|constructor].
  cbn [ra_session_id ra_search_id ra_repo_full_name ra_repo_url ra_description
       ra_relevancy_score].
  rewrite repo_eta. repeat split; auto.
Qed.

Lemma for_of_analyze_ext env sid id term items : forall w,
  rows_extend (analyzer_ai env) term sid id (rows_of w)
    (rows_of (snd (for_of items (analyze_candidate env sid id term) w))) /\
  w_acked (snd (for_of items (analyze_candidate env sid id term) w)) = w_acked w /\
  w_do (snd (for_of items (analyze_candidate env sid id term) w)) = w_do w.
Proof.
  induction items as [|r items IH]; intros w.
  - simpl; repeat split; auto using rows_extend_refl.
  - cbn [for_of].
    destruct (analyze_candidate_ext env sid id term r w) as (H1 & H2 & H3).
    destruct (analyze_candidate env sid id term r w) as [[u|e] w1] eqn:E; simpl in *.
    + rewrite (bind_ok _ _ _ _ _ E).
      destruct (IH w1) as (H4 & H5 & H6).
      repeat split; [eapply rows_extend_trans; eauto | congruence | congruence].
    + rewrite (bind_err _ _ _ _ _ E). simpl. auto.
Qed.

(** A candidate whose scoring succeeds is recorded: afterwards the session
    has a row for it. *)
Lemma analyze_candidate_ok env sid id term r w :
  (exists q, analyzeRepository (analyzer_ai env) r term = Ok q) ->
  exists w', analyze_candidate env sid id term r w = (Ok tt, w') /\
    analysis_exists sid (full_name r) (rows_of w') = true /\
    exists added, rows_of w' = (rows_of w ++ added)%list.
Proof.
  intros (q & Ea). rewrite analyze_candidate_unfold.
  destruct (analysis_exists sid (full_name r) (rows_of w)) eqn:Ex.
  { exists w; split; [reflexivity|]. split; [exact Ex|]. exists []; rewrite app_nil_r; reflexivity. }
  unfold bind, lift. rewrite Ea. unfold ret, db_run.
  unfold insert_analysis. unfold rows_of in Ex. rewrite Ex.
  eexists; split; [reflexivity|]. unfold rows_of; simpl. split.
  - rewrite analysis_exists_app, orb_true_iff. right. simpl.
    rewrite !String.eqb_refl. reflexivity.
  - eexists; reflexivity.
Qed.

Lemma for_of_analyze_ok env sid id term items : forall w,
  Forall (fun r => exists q, analyzeRepository (analyzer_ai env) r term = Ok q) items ->
  exists w', for_of items (analyze_candidate env sid id term) w = (Ok tt, w') /\
    Forall (fun r => analysis_exists sid (full_name r) (rows_of w') = true) items /\
    exists added, rows_of w' = (rows_of w ++ added)%list.
Proof.
  induction items as [|r items IH]; intros w Hall.
  - exists w. split; [reflexivity|]. split; [constructor|]. exists []; rewrite app_nil_r; reflexivity.
  - inversion Hall as [|? ? Hr Hrest]; subst.
    destruct (analyze_candidate_ok env sid id term r w Hr) as (w1 & E1 & Hx1 & a1 & Ha1).
    destruct (IH w1 Hrest) as (w2 & E2 & Hx2 & a2 & Ha2).
    exists w2. cbn [for_of]. rewrite (bind_ok _ _ _ _ _ E1). split; [exact E2|].
    split.
    + constructor; [|exact Hx2].
      rewrite Ha2, analysis_exists_app, Hx1. reflexivity.
    + exists (a1 ++ a2)%list. rewrite Ha2, Ha1, app_assoc. reflexivity.
Qed.

Lemma filter_absent_id (id : Z) l :
  ~ In id l -> filter (fun x => negb (Z.eqb x id)) l = l.
Proof.
  induction l as [|x l IH]; simpl; intros H; [reflexivity|].
  destruct (Z.eqb x id) eqn:E.
  - apply Z.eqb_eq in E; subst; exfalso; auto.
  - simpl; f_equal; auto.
Qed.

(** C2 (amended).  The consumer never looks at the task's status: a
    (redelivered) message is processed again in full.  When the search
    answers a list of candidates that [analyzeRepository] all scores, the
    message succeeds and every candidate then has a row of the session.
    Whatever happens, the existing rows of [repo_analysis] are kept and the
    only rows added belong to the message's session and search, are for
    repositories that had no row of that session before, and carry the
    score [analyzeRepository] gave them.  On success the orchestrator's
    outstanding list loses the message's search id (a no-op when the id is
    already gone) and the message is acknowledged, once and last; when any
    step throws, the message is not acknowledged. *)
Theorem redelivery_reprocesses_then_acks env msg w :
  (forall items w1,
      searchRepositoriesWithRetry env (msg_search_term (m_body msg)) 3 w =
        (Ok (SearchJson (Some items)), w1) ->
      Forall (fun r => exists q,
                analyzeRepository (analyzer_ai env) r (msg_search_term (m_body msg)) = Ok q)
             items ->
      fst (process_message env msg w) = Ok tt /\
      Forall (fun r => analysis_exists (msg_session_id (m_body msg)) (full_name r)
                         (rows_of (snd (process_message env msg w))) = true) items) /\
  match process_message env msg w with
  | (Ok _, w') =>
      rows_extend (analyzer_ai env) (msg_search_term (m_body msg))
                  (msg_session_id (m_body msg)) (msg_search_id (m_body msg))
                  (rows_of w) (rows_of w') /\
      w_do w' orchestrator_name =
        option_map (filter (fun x => negb (Z.eqb x (msg_search_id (m_body msg)))))
                   (w_do w orchestrator_name) /\
      (forall l, w_do w orchestrator_name = Some l -> ~ In (msg_search_id (m_body msg)) l ->
                 w_do w' orchestrator_name = Some l) /\
      w_acked w' = (w_acked w ++ [m_id msg])%list
  | (Err _, w') =>
      rows_extend (analyzer_ai env) (msg_search_term (m_body msg))
                  (msg_session_id (m_body msg)) (msg_search_id (m_body msg))
                  (rows_of w) (rows_of w') /\
      w_acked w' = w_acked w
  end.
Proof.
  set (sid := msg_session_id (m_body msg)).
  set (id := msg_search_id (m_body msg)).
  set (term := msg_search_term (m_body msg)).
  split.
  { intros items w1 Es Hall.
    destruct (for_of_analyze_ok env sid id term items w1 Hall) as (w2 & E2 & Hx & _).
    unfold process_message; cbv zeta. fold sid id term.
    rewrite (bind_ok _ _ _ _ _ Es), (bind_ok _ _ _ items w1 eq_refl), (bind_ok _ _ _ _ _ E2).
    unfold bind, modify, workflowComplete.
    destruct (w_do (set_db (complete_search id (w_db w2)) w2) orchestrator_name);
      split; try reflexivity; exact Hx. }
  destruct (search_loop_trace_only env term 3 3 0 w) as (t & Et & _).
  unfold process_message; cbv zeta. fold sid id term.
  destruct (searchRepositoriesWithRetry env term 3 w) as [[sr|e] w1] eqn:E1;
    unfold searchRepositoriesWithRetry in E1; rewrite E1 in Et; simpl in Et; subst w1.
  2: { rewrite (bind_err _ _ _ _ _ E1). split; [apply rows_extend_refl | reflexivity]. }
  rewrite (bind_ok _ _ _ _ _ E1).
  set (w1 := mkWorld (w_db w) (w_do w) (w_workflows w) (w_acked w) (w_trace w ++ t)).
  destruct sr as [[items|]|].
  2, 3: split; [apply rows_extend_refl | reflexivity].
  rewrite (bind_ok _ _ _ items w1 eq_refl).
  destruct (for_of_analyze_ext env sid id term items w1) as (H1 & H2 & H3).
  destruct (for_of items (analyze_candidate env sid id term) w1) as [[u|e] w2] eqn:E2;
    simpl in H1, H2, H3.
  2: { rewrite (bind_err _ _ _ _ _ E2). split; [exact H1 | exact H2]. }
  rewrite (bind_ok _ _ _ _ _ E2).
  unfold bind, modify, workflowComplete.
  change (w_do (set_db (complete_search id (w_db w2)) w2)) with (w_do w2). rewrite H3.
  destruct (w_do w orchestrator_name) as [l|] eqn:Ed; simpl.
  - try rewrite String.eqb_refl. repeat split.
    + exact H1.
    + intros l' [= <-] Hn. f_equal. apply filter_absent_id; exact Hn.
    + rewrite H2. reflexivity.
  - repeat split.
    + exact H1.
    + rewrite H3, Ed. reflexivity.
    + intros l' [=].
    + rewrite H2. reflexivity.
Qed.

Lemma redelivery_reprocesses_then_acks_witness :
  (exists items w1,
      searchRepositoriesWithRetry env_replay (msg_search_term (m_body msg_x)) 3 w_x_done =
        (Ok (SearchJson (Some items)), w1) /\
      Forall (fun r => exists q,
                analyzeRepository (analyzer_ai env_replay) r (msg_search_term (m_body msg_x))
                = Ok q) items) /\
  ((forall items w1,
      searchRepositoriesWithRetry env_replay (msg_search_term (m_body msg_x)) 3 w_x_done =
        (Ok (SearchJson (Some items)), w1) ->
      Forall (fun r => exists q,
                analyzeRepository (analyzer_ai env_replay) r (msg_search_term (m_body msg_x))
                = Ok q) items ->
      fst (process_message env_replay msg_x w_x_done) = Ok tt /\
      Forall (fun r => analysis_exists (msg_session_id (m_body msg_x)) (full_name r)
                         (rows_of (snd (process_message env_replay msg_x w_x_done))) = true)
             items) /\
   match process_message env_replay msg_x w_x_done with
   | (Ok _, w') =>
       rows_extend (analyzer_ai env_replay) (msg_search_term (m_body msg_x))
                   (msg_session_id (m_body msg_x)) (msg_search_id (m_body msg_x))
                   (rows_of w_x_done) (rows_of w') /\
       w_do w' orchestrator_name =
         option_map (filter (fun x => negb (Z.eqb x (msg_search_id (m_body msg_x)))))
                    (w_do w_x_done orchestrator_name) /\
       (forall l, w_do w_x_done orchestrator_name = Some l ->
                  ~ In (msg_search_id (m_body msg_x)) l ->
                  w_do w' orchestrator_name = Some l) /\
       w_acked w' = (w_acked w_x_done ++ [m_id msg_x])%list
   | (Err _, w') =>
       rows_extend (analyzer_ai env_replay) (msg_search_term (m_body msg_x))
                   (msg_session_id (m_body msg_x)) (msg_search_id (m_body msg_x))
                   (rows_of w_x_done) (rows_of w') /\
       w_acked w' = w_acked w_x_done
   end).
Proof.
  split.
  - exists [repo_new], (snd (searchRepositoriesWithRetry env_replay "x" 3 w_x_done)).
    split; [vm_compute; reflexivity|].
    constructor; [exists (5 # 10)%Q; vm_compute; reflexivity | constructor].
  - exact (redelivery_reprocesses_then_acks env_replay msg_x w_x_done).
Defined.

(** C2 (counterexample).  Task 1 of session "A" has completed with no
    candidate and its message was acknowledged.  The redelivered message is
    processed again; the search now answers a new repository, so a new
    [repo_analysis] row is written and the message is acknowledged a second
    time. *)
Lemma replay_of_completed_task_adds_row_counterexample :
  search_status_of 1 w_x_done = Some StCompleted /\
  w_acked w_x_done = [7] /\
  rows_of w_x_done = [] /\
  List.length (rows_of w_x_replayed) = 1%nat /\
  w_acked w_x_replayed = [7; 7].
Proof. repeat split; vm_compute; reflexivity. Qed.

(** ** analyzeRepository *)

(** C5 (failing input).  The score is not bounded to [0,1]: a structured
    answer [{"relevancyScore": 1.5, ...}] is returned as 1.5, and the regex
    fallback on the reasoning text "score 9.5" returns 9.5.  (A throwing
    reasoning call, outside the [try], also rejects to the caller.) *)
Theorem analyzeRepository_score_out_of_range :
  analyzeRepository (analyzer_with "0.9 relevant" struct_too_high) repo_x "edge" = Ok (3 # 2)%Q /\
  (1 < 3 # 2)%Q /\
  analyzeRepository (analyzer_with "score 9.5" StructThrows) repo_x "edge" = Ok (95 # 10)%Q /\
  (1 < 95 # 10)%Q /\
  analyzeRepository analyzer_down repo_x "edge" = Err AIError.
Proof. repeat split; vm_compute; reflexivity. Qed.

(** C6 (counterexample).  The structuring answer [{"score": 0.8}] does not
    match the schema (no [relevancyScore]); the code then scores 0 instead of
    falling back to the 0.75 found in the reasoning text. *)
Lemma schema_mismatch_scores_zero_counterexample :
  analyzeRepository (analyzer_with "relevancy 0.75, fits" struct_wrong_key) repo_x "edge" = Ok 0%Q /\
  regex_fallback "relevancy 0.75, fits" = (75 # 100)%Q.
Proof. split; vm_compute; reflexivity. Qed.

(** C6 (amended).  Once the reasoning call has answered: if the structuring
    call throws or its text does not parse, the score is [Number.parseFloat]
    of the leftmost match of [\d\.\d+] in the reasoning text (kept when
    finite), or 0 without a match; if it parses and has a numeric
    [relevancyScore], that number is the score; if it parses without a
    numeric [relevancyScore], the score is 0 (no regex fallback). *)
Theorem analyzeRepository_score_sources ai r term resp :
  reasoning_call ai (full_name r) term = AIReturns resp ->
  match structuring_call ai (ai_text resp) with
  | StructThrows =>
      analyzeRepository ai r term =
      Ok (match regex_first_float (list_ascii_of_string (ai_text resp)) with
          | Some m => match parse_float_match m with
                      | JsFinite s => s
                      | _ => 0%Q
                      end
          | None => 0%Q
          end)
  | StructParsed v =>
      match json_get v "relevancyScore" with
      | Some (JNum q) => analyzeRepository ai r term = Ok q
      | _ => analyzeRepository ai r term = Ok 0%Q
      end
  end.
Proof.
  intros H. unfold analyzeRepository. rewrite H.
  destruct (structuring_call ai (ai_text resp)) as [|v]; [reflexivity|].
  destruct (json_get v "relevancyScore") as [[]|]; reflexivity.
Qed.

Lemma analyzeRepository_score_sources_witness :
  reasoning_call (analyzer_with "relevancy 0.75, fits" struct_wrong_key) (full_name repo_x) "edge"
    = AIReturns (RespString "relevancy 0.75, fits") /\
  match structuring_call (analyzer_with "relevancy 0.75, fits" struct_wrong_key)
          (ai_text (RespString "relevancy 0.75, fits")) with
  | StructThrows =>
      analyzeRepository (analyzer_with "relevancy 0.75, fits" struct_wrong_key) repo_x "edge" =
      Ok (match regex_first_float (list_ascii_of_string (ai_text (RespString "relevancy 0.75, fits"))) with
          | Some m => match parse_float_match m with
                      | JsFinite s => s
                      | _ => 0%Q
                      end
          | None => 0%Q
          end)
  | StructParsed v =>
      match json_get v "relevancyScore" with
      | Some (JNum q) =>
          analyzeRepository (analyzer_with "relevancy 0.75, fits" struct_wrong_key) repo_x "edge" = Ok q
      | _ => analyzeRepository (analyzer_with "relevancy 0.75, fits" struct_wrong_key) repo_x "edge" = Ok 0%Q
      end
  end.
Proof.
  split; [reflexivity|].
  apply analyzeRepository_score_sources; reflexivity.
Defined.

(** ** getStatus ranking *)

Lemma engine_backward_sorted_perm : sql_order_ok engine_backward.
Proof.
  intros l. destruct (engine_forward_sorted_perm (rev l)) as [Hp Hs].
  split; [|exact Hs].
  eapply perm_trans; [exact Hp|]. apply Permutation_sym, Permutation_rev.
Qed.

Lemma score_ge_trans a b c :
  score_ge a b = true -> score_ge b c = true -> score_ge a c = true.
Proof.
  unfold score_ge; rewrite !Qle_bool_iff; intros H1 H2.
  eapply Qle_trans; eassumption.
Qed.

Lemma strongly_sorted_app_l {A} (R : A -> A -> Prop) l1 l2 :
  StronglySorted R (l1 ++ l2) -> StronglySorted R l1.
Proof.
  induction l1 as [|a l1 IH]; simpl; intros H; [constructor|].
  apply StronglySorted_inv in H as [H1 H2].
  constructor; [auto|].
  rewrite Forall_forall in *; intros x Hx; apply H2, in_or_app; auto.
Qed.

Lemma strongly_sorted_app_across {A} (R : A -> A -> Prop) l1 l2 :
  StronglySorted R (l1 ++ l2) -> forall x y, In x l1 -> In y l2 -> R x y.
Proof.
  induction l1 as [|a l1 IH]; simpl; intros H x y Hx Hy; [contradiction|].
  apply StronglySorted_inv in H as [H1 H2].
  destruct Hx as [<-|Hx]; [|eauto].
  rewrite Forall_forall in H2; apply H2, in_or_app; auto.
Qed.

(** C7 (counterexample).  Two rows of a finished session have the same
    score; the earlier one (analysed at 100) comes first in the spec's
    ranking, but an engine that returns ties in the reverse of table order
    still sorts by [relevancy_score DESC] and puts the later one first: the
    query has no tie-break. *)
Lemma ranking_tie_order_counterexample :
  sql_order_ok engine_backward /\
  session_status_api engine_backward "S" w_tie = mkReply Completed [row_late; row_early] /\
  spec_ranked_results "S" (rows_of w_tie) = [row_early; row_late] /\
  [row_late; row_early] <> [row_early; row_late].
Proof.
  split; [exact engine_backward_sorted_perm|].
  split; [vm_compute; reflexivity|].
  split; [vm_compute; reflexivity|].
  discriminate.
Qed.

(** C7 (amended).  With no pending search in the shared list, the reply is
    [Completed] and its results are at most 10 rows of the session, in
    non-increasing score, with no left-out row of the session scoring higher
    than a returned one; the order among equal scores is the engine's, not
    fixed by the query. *)
Theorem getStatus_completed_top10 order_desc sid w :
  sql_order_ok order_desc ->
  (forall i ids, w_do w orchestrator_name <> Some (i :: ids)) ->
  st_status (session_status_api order_desc sid w) = Completed /\
  exists rest,
    Permutation (st_results (session_status_api order_desc sid w) ++ rest)
      (filter (fun r => String.eqb (ra_session_id r) sid) (rows_of w)) /\
    List.length (st_results (session_status_api order_desc sid w)) =
      Nat.min 10 (List.length (filter (fun r => String.eqb (ra_session_id r) sid) (rows_of w))) /\
    Sorted (fun a b => score_ge a b = true) (st_results (session_status_api order_desc sid w)) /\
    (forall x y, In x (st_results (session_status_api order_desc sid w)) -> In y rest ->
       score_ge x y = true).
Proof.
  intros Ho Hnp.
  assert (E : session_status_api order_desc sid w =
              mkReply Completed
                (firstn 10 (order_desc
                   (filter (fun r => String.eqb (ra_session_id r) sid) (rows_of w))))).
  { unfold session_status_api, getStatus, rows_of.
    destruct (w_do w orchestrator_name) as [[|i ids]|] eqn:D; try reflexivity.
    exfalso; exact (Hnp i ids eq_refl). }
  rewrite E; cbn [st_status st_results]. split; [reflexivity|].
  set (L := filter (fun r => String.eqb (ra_session_id r) sid) (rows_of w)).
  destruct (Ho L) as [Hp Hs].
  assert (Htr : Relations_1.Transitive (fun a b : analysis_row => score_ge a b = true)).
  { intros a b c; apply score_ge_trans. }
  pose proof (Sorted_StronglySorted Htr Hs) as HSS.
  rewrite <- (firstn_skipn 10 (order_desc L)) in HSS.
  exists (skipn 10 (order_desc L)).
  split; [rewrite firstn_skipn; exact Hp|].
  split; [rewrite length_firstn, (Permutation_length Hp); reflexivity|].
  split; [apply StronglySorted_Sorted, (strongly_sorted_app_l _ _ _ HSS)|].
  exact (strongly_sorted_app_across _ _ _ HSS).
Qed.

Lemma getStatus_completed_top10_witness :
  sql_order_ok engine_backward /\
  (forall i ids, w_do w_tie orchestrator_name <> Some (i :: ids)) /\
  (st_status (session_status_api engine_backward "S" w_tie) = Completed /\
   exists rest,
     Permutation (st_results (session_status_api engine_backward "S" w_tie) ++ rest)
       (filter (fun r => String.eqb (ra_session_id r) "S") (rows_of w_tie)) /\
     List.length (st_results (session_status_api engine_backward "S" w_tie)) =
       Nat.min 10 (List.length (filter (fun r => String.eqb (ra_session_id r) "S") (rows_of w_tie))) /\
     Sorted (fun a b => score_ge a b = true) (st_results (session_status_api engine_backward "S" w_tie)) /\
     (forall x y, In x (st_results (session_status_api engine_backward "S" w_tie)) -> In y rest ->
        score_ge x y = true)).
Proof.
  assert (Hnp : forall i ids, w_do w_tie orchestrator_name <> Some (i :: ids))
    by (intros i ids; discriminate).
  split; [exact engine_backward_sorted_perm|].
  split; [exact Hnp|].
  exact (getStatus_completed_top10 engine_backward "S" w_tie engine_backward_sorted_perm Hnp).
Defined.

(* ================================================================== *)
(** * Further properties of the code *)

(** ** [requireApiKey] *)

Lemma substring_0_full s : forall m,
  (String.length s <= m)%nat -> substring 0 m s = s.
Proof.
  induction s as [|c s IH]; intros [|m] H; simpl in *; try reflexivity; try lia.
  f_equal; apply IH; lia.
Qed.

Lemma prefix_split p : forall a m,
  (String.length a <= m)%nat -> String.prefix p a = true ->
  a = (p ++ substring (String.length p) m a)%string.
Proof.
  induction p as [|c p IH]; intros a m Hl Hp; simpl.
  - symmetry; apply substring_0_full; exact Hl.
  - destruct a as [|c' a]; simpl in Hp; [discriminate|].
    destruct (ascii_dec c c') as [<-|]; [|discriminate].
    f_equal. apply IH; simpl in Hl; [lia | exact Hp].
Qed.

Lemma prefix_app p t : String.prefix p (p ++ t) = true.
Proof.
  induction p as [|c p IH]; simpl; [destruct t; reflexivity|].
  destruct (ascii_dec c c) as [_|n]; [exact IH | congruence].
Qed.

Lemma substring_after_prefix p t : forall m,
  (String.length (p ++ t) <= m)%nat -> substring (String.length p) m (p ++ t) = t.
Proof.
  induction p as [|c p IH]; intros m H; simpl in *.
  - apply substring_0_full; exact H.
  - apply IH; lia.
Qed.

Lemma bearer_token_some a t :
  bearer_token (Some a) = Some t <-> a = ("Bearer " ++ t)%string.
Proof.
  unfold bearer_token, starts_with. split.
  - destruct (String.prefix "Bearer " a) eqn:E; [|discriminate].
    intros [= <-]. apply prefix_split; [lia | exact E].
  - intros ->. rewrite prefix_app. f_equal.
    apply substring_after_prefix; lia.
Qed.

(** A configured, non-empty [WORKER_API_KEY]: a request other than
    [OPTIONS] reaches the route exactly when its [x-api-key] header equals
    the key, or when it has no (or an empty) [x-api-key] header and its
    [authorization] header is ["Bearer " ++ key]; a present, non-empty
    [x-api-key] takes precedence over [authorization].  Every other such
    request is answered 401. *)
Theorem requireApiKey_accepts_iff method key header :
  method <> "OPTIONS" -> key <> "" ->
  (requireApiKey method (Some key) header = MwNext <->
   header "x-api-key" = Some key \/
   ((header "x-api-key" = None \/ header "x-api-key" = Some "") /\
    header "authorization" = Some ("Bearer " ++ key)%string)) /\
  (requireApiKey method (Some key) header <> MwNext ->
   requireApiKey method (Some key) header = MwJson 401).
Proof.
  intros Hm Hk. unfold requireApiKey.
  apply String.eqb_neq in Hm. rewrite Hm.
  assert (Ek : js_truthy_str (Some key) = true).
  { simpl. apply String.eqb_neq in Hk. rewrite Hk. reflexivity. }
  rewrite Ek. cbn [negb]. cbv zeta.
  assert (Hcase : forall p, (if negb (opt_str_eqb p (Some key)) then MwJson 401 else MwNext)
                            = MwNext <-> p = Some key).
  { intros [x|]; simpl; [|split; discriminate].
    destruct (String.eqb x key) eqn:E; simpl.
    - apply String.eqb_eq in E; subst; tauto.
    - apply String.eqb_neq in E; split; [discriminate | congruence]. }
  split.
  2: { destruct (negb (opt_str_eqb _ (Some key))); [reflexivity | congruence]. }
  rewrite Hcase.
  destruct (header "x-api-key") as [x|] eqn:Ex; cbn [js_truthy_str negb].
  - destruct (String.eqb x "") eqn:E0; cbn [negb].
    + apply String.eqb_eq in E0; subst x.
      destruct (header "authorization") as [a|] eqn:Ea.
      * rewrite bearer_token_some. split.
        -- intros ->; right; split; auto.
        -- intros [H|[_ H]]; [congruence|]. congruence.
      * simpl. split; [discriminate|]. intros [H|[_ H]]; congruence.
    + apply String.eqb_neq in E0. split.
      * intros H; left; exact H.
      * intros [H|[[H|H] _]]; congruence.
  - destruct (header "authorization") as [a|] eqn:Ea.
    + rewrite bearer_token_some. split.
      * intros ->; right; split; auto.
      * intros [H|[_ H]]; [discriminate|]. congruence.
    + simpl. split; [discriminate|]. intros [H|[_ H]]; congruence.
Qed.

Lemma requireApiKey_accepts_iff_witness :
  "GET" <> "OPTIONS" /\ "k1" <> "" /\
  ((requireApiKey "GET" (Some "k1") (headers_bearer "k1") = MwNext <->
    headers_bearer "k1" "x-api-key" = Some "k1" \/
    ((headers_bearer "k1" "x-api-key" = None \/ headers_bearer "k1" "x-api-key" = Some "") /\
     headers_bearer "k1" "authorization" = Some ("Bearer " ++ "k1")%string)) /\
   (requireApiKey "GET" (Some "k1") (headers_bearer "k1") <> MwNext ->
    requireApiKey "GET" (Some "k1") (headers_bearer "k1") = MwJson 401)).
Proof.
  assert (H1 : "GET" <> "OPTIONS") by discriminate.
  assert (H2 : "k1" <> "") by discriminate.
  split; [exact H1|]. split; [exact H2|].
  exact (requireApiKey_accepts_iff "GET" "k1" (headers_bearer "k1") H1 H2).
Defined.

(** ** The older [analyzeRepository] of part_008 *)

(** The part_008 [analyzeRepository] rejects exactly when its AI call
    rejects; otherwise it maps what [Number.parseFloat] makes of the model's
    text to a score in [0, 1]: [NaN] and -Infinity give 0, Infinity gives 1,
    a finite value below 0 gives 0, one above 1 gives 1, and one in [0, 1]
    is returned unchanged. *)
Theorem analyzeRepository_v008_clamped parseFloat response :
  match response with
  | RunThrows => analyzeRepository_v008 parseFloat response = Err AIError
  | _ =>
      match parseFloat (extractAiText response) with
      | JsNaN | JsNegInf => analyzeRepository_v008 parseFloat response = Ok (JsFinite 0)
      | JsPosInf => analyzeRepository_v008 parseFloat response = Ok (JsFinite 1)
      | JsFinite p =>
          ((p < 0)%Q -> analyzeRepository_v008 parseFloat response = Ok (JsFinite 0)) /\
          ((1 < p)%Q -> analyzeRepository_v008 parseFloat response = Ok (JsFinite 1)) /\
          ((0 <= p <= 1)%Q -> exists q,
              analyzeRepository_v008 parseFloat response = Ok (JsFinite q) /\ (q == p)%Q)
      end
  end.
Proof.
  assert (Hf : forall p : Q,
      ((p < 0)%Q -> Ok (math_min (math_max (JsFinite p) (JsFinite 0)) (JsFinite 1))
                    = Ok (JsFinite 0)) /\
      ((1 < p)%Q -> Ok (math_min (math_max (JsFinite p) (JsFinite 0)) (JsFinite 1))
                    = Ok (JsFinite 1)) /\
      ((0 <= p <= 1)%Q -> exists q,
          Ok (math_min (math_max (JsFinite p) (JsFinite 0)) (JsFinite 1)) = Ok (JsFinite q)
          /\ (q == p)%Q)).
  { intros p. cbn [math_max].
    destruct (Qle_bool p 0) eqn:E1; cbn [math_min].
    - apply Qle_bool_iff in E1. split; [intros _; reflexivity|]. split.
      + intros H. exfalso. apply (Qlt_not_le _ _ H). eapply Qle_trans; [exact E1|]. discriminate.
      + intros [H _]. exists 0%Q. split; [reflexivity|]. apply Qle_antisym; assumption.
    - assert (Hp : (0 < p)%Q).
      { apply Qnot_le_lt. intros C. apply Qle_bool_iff in C. congruence. }
      split; [intros H; exfalso; apply (Qlt_not_le _ _ H), Qlt_le_weak, Hp|].
      destruct (Qle_bool p 1) eqn:E2.
      + apply Qle_bool_iff in E2. split.
        * intros H. exfalso. apply (Qlt_not_le _ _ H E2).
        * intros _. exists p. split; reflexivity.
      + split; [intros _; reflexivity|].
        intros [_ H]. apply Qle_bool_iff in H. congruence. }
  destruct response as [|s|r st]; [reflexivity|..];
    unfold analyzeRepository_v008;
    destruct (parseFloat (extractAiText _)) as [| | |p]; try reflexivity; apply Hf.
Qed.

(** ** [searchRepositoriesWithRetry] *)

Lemma search_loop_budget env term r : forall n i w,
  (i + n = r)%nat ->
  exists t, snd (search_loop env term r i n w) =
            mkWorld (w_db w) (w_do w) (w_workflows w) (w_acked w) (w_trace w ++ t) /\
    (count_fetches t <= n)%nat /\
    (n = O -> t = []) /\
    (n <> O -> total_sleep t + 500 * Z.of_nat i * (Z.of_nat i + 1)
               <= 500 * Z.of_nat r * (Z.of_nat r - 1)).
Proof.
  induction n as [|n IH]; intros i [d dof wf ack tr] Hr.
  - exists []; simpl; rewrite app_nil_r; repeat split; auto; lia.
  - cbn [search_loop]. unfold bind at 1, modify.
    destruct (search_fetch env term i) as [|st items] eqn:Ef.
    + destruct (Nat.eqb i (r - 1)) eqn:Ei.
      * apply Nat.eqb_eq in Ei.
        exists [EvFetch term i]; split; [reflexivity|].
        split; [simpl; lia|]. split; [discriminate|].
        intros _. cbn [total_sleep].
        assert (Z.of_nat i = Z.of_nat r - 1) by lia. nia.
      * apply Nat.eqb_neq in Ei. unfold bind at 1.
        destruct (IH (S i) (emit (EvSleep (1000 * Z.of_nat (i + 1))) (emit (EvFetch term i)
                   (mkWorld d dof wf ack tr))) ltac:(lia)) as (t & Et & Hc & H0 & Hs).
        exists (EvFetch term i :: EvSleep (1000 * Z.of_nat (i + 1)) :: t).
        split; [simpl in Et |- *; rewrite Et, <- !app_assoc; reflexivity|].
        split; [simpl; lia|]. split; [discriminate|].
        intros _. assert (Hn : n <> O) by lia. specialize (Hs Hn).
        cbn [total_sleep]. rewrite Nat2Z.inj_succ in Hs. rewrite Nat2Z.inj_add.
        cbn [Z.of_nat Pos.of_succ_nat] in *. nia.
    + destruct (Z.eqb st 200).
      * exists [EvFetch term i]; split; [reflexivity|].
        split; [simpl; lia|]. split; [discriminate|].
        intros _. cbn [total_sleep].
        assert (Z.of_nat i + 1 <= Z.of_nat r) by lia. nia.
      * destruct (IH (S i) (emit (EvFetch term i) (mkWorld d dof wf ack tr)) ltac:(lia))
          as (t & Et & Hc & H0 & Hs).
        exists (EvFetch term i :: t).
        split; [simpl in Et |- *; rewrite Et, <- !app_assoc; reflexivity|].
        split; [simpl; lia|]. split; [discriminate|].
        intros _. cbn [total_sleep]. destruct n as [|n].
        -- rewrite (H0 eq_refl). cbn [total_sleep].
           assert (Z.of_nat i + 1 = Z.of_nat r) by lia. nia.
        -- specialize (Hs ltac:(discriminate)). rewrite Nat2Z.inj_succ in Hs. nia.
Qed.

(** Whatever the fetches do, [searchRepositoriesWithRetry(term, retries)]
    changes nothing but adds at most [retries] fetch attempts and sleeps at
    most [1000 * (1 + ... + (retries - 1))] ms in all (3000 ms for the
    default [retries = 3]). *)
Theorem search_retry_budget env term retries w :
  exists t, snd (searchRepositoriesWithRetry env term retries w) =
            mkWorld (w_db w) (w_do w) (w_workflows w) (w_acked w) (w_trace w ++ t) /\
    (count_fetches t <= retries)%nat /\
    total_sleep t <= 500 * Z.of_nat retries * (Z.of_nat retries - 1).
Proof.
  destruct (search_loop_budget env term retries retries 0 w ltac:(lia))
    as (t & Et & Hc & H0 & Hs).
  exists t. split; [exact Et|]. split; [exact Hc|].
  destruct retries as [|r].
  - rewrite (H0 eq_refl). simpl. lia.
  - specialize (Hs ltac:(discriminate)). change (Z.of_nat 0) with 0 in Hs. lia.
Qed.

Lemma search_loop_first_200 env term r k items : forall n i w,
  (i + n = r)%nat -> (i <= k)%nat -> (k < r)%nat ->
  (forall j, (i <= j < k)%nat -> attempt_failed (search_fetch env term j)) ->
  search_fetch env term k = FetchResponse 200 items ->
  fst (search_loop env term r i n w) = Ok (SearchJson items).
Proof.
  induction n as [|n IH]; intros i w Hr Hik Hk Hf Hok; [lia|].
  cbn [search_loop]. unfold bind at 1, modify.
  destruct (Nat.eq_dec i k) as [->|Hne].
  - rewrite Hok. reflexivity.
  - destruct (Hf i ltac:(lia)) as [E|(st & it & E & Hst)]; rewrite E.
    + assert (Ei : Nat.eqb i (r - 1) = false) by (apply Nat.eqb_neq; lia).
      rewrite Ei. unfold bind at 1, modify.
      apply IH; [lia | lia | exact Hk | | exact Hok].
      intros j Hj; apply Hf; lia.
    + apply Z.eqb_neq in Hst. rewrite Hst.
      apply IH; [lia | lia | exact Hk | | exact Hok].
      intros j Hj; apply Hf; lia.
Qed.

(** If attempts [0 .. k-1] each throw or answer a non-200 status and
    attempt [k < retries] answers 200, [searchRepositoriesWithRetry]
    resolves to the JSON of that response. *)
Theorem search_returns_first_200 env term retries k items w :
  (k < retries)%nat ->
  (forall i, (i < k)%nat -> attempt_failed (search_fetch env term i)) ->
  search_fetch env term k = FetchResponse 200 items ->
  fst (searchRepositoriesWithRetry env term retries w) = Ok (SearchJson items).
Proof.
  intros Hk Hf Hok. unfold searchRepositoriesWithRetry.
  apply (search_loop_first_200 env term retries k items retries 0 w);
    [lia | lia | exact Hk | | exact Hok].
  intros j Hj; apply Hf; lia.
Qed.

Lemma search_returns_first_200_witness :
  (1 < 3)%nat /\
  (forall i, (i < 1)%nat -> attempt_failed (search_fetch env_flaky "x" i)) /\
  search_fetch env_flaky "x" 1 = FetchResponse 200 (Some [repo_x]) /\
  fst (searchRepositoriesWithRetry env_flaky "x" 3 w_empty) = Ok (SearchJson (Some [repo_x])).
Proof.
  assert (H1 : (1 < 3)%nat) by lia.
  assert (H2 : forall i, (i < 1)%nat -> attempt_failed (search_fetch env_flaky "x" i)).
  { intros [|i] Hi; [left; reflexivity | lia]. }
  assert (H3 : search_fetch env_flaky "x" 1 = FetchResponse 200 (Some [repo_x])) by reflexivity.
  split; [exact H1|]. split; [exact H2|]. split; [exact H3|].
  exact (search_returns_first_200 env_flaky "x" 3 1 (Some [repo_x]) w_empty H1 H2 H3).
Defined.

(** When all three attempts answer a status other than 200 (none throws),
    the search resolves to [undefined] after three fetches and no sleep,
    and the consumer then throws a TypeError on [searchResults.items]:
    nothing is written, the task is not completed and the message is not
    acknowledged. *)
Theorem non_200_search_fails_message env msg w :
  (forall i, (i < 3)%nat -> exists st items,
     search_fetch env (msg_search_term (m_body msg)) i = FetchResponse st items /\ st <> 200) ->
  process_message env msg w =
  (Err TypeError,
   emit (EvFetch (msg_search_term (m_body msg)) 2)
     (emit (EvFetch (msg_search_term (m_body msg)) 1)
        (emit (EvFetch (msg_search_term (m_body msg)) 0) w))).
Proof.
  intros H.
  destruct (H 0%nat ltac:(lia)) as (s0 & i0 & E0 & N0).
  destruct (H 1%nat ltac:(lia)) as (s1 & i1 & E1 & N1).
  destruct (H 2%nat ltac:(lia)) as (s2 & i2 & E2 & N2).
  apply Z.eqb_neq in N0, N1, N2.
  unfold process_message, searchRepositoriesWithRetry. cbn [search_loop].
  unfold bind, modify. rewrite E0, E1, E2, N0, N1, N2. reflexivity.
Qed.

Lemma non_200_search_fails_message_witness :
  (forall i, (i < 3)%nat -> exists st items,
     search_fetch env_503 (msg_search_term (m_body msg_x)) i = FetchResponse st items /\ st <> 200) /\
  process_message env_503 msg_x w_started_A =
  (Err TypeError,
   emit (EvFetch (msg_search_term (m_body msg_x)) 2)
     (emit (EvFetch (msg_search_term (m_body msg_x)) 1)
        (emit (EvFetch (msg_search_term (m_body msg_x)) 0) w_started_A))).
Proof.
  assert (H : forall i, (i < 3)%nat -> exists st items,
     search_fetch env_503 (msg_search_term (m_body msg_x)) i = FetchResponse st items /\ st <> 200).
  { intros i _. exists 503, None. split; [reflexivity | discriminate]. }
  split; [exact H|]. exact (non_200_search_fails_message env_503 msg_x w_started_A H).
Defined.

(** ** [start] and [workflowComplete] *)

Lemma workflowComplete_effect self a w :
  workflowComplete self a w =
  (Ok tt, match w_do w self with
          | Some l => put_pending self (filter (fun id => negb (Z.eqb id a)) l) w
          | None => w
          end).
Proof. unfold workflowComplete. destruct (w_do w self); reflexivity. Qed.

Lemma filter_filter_comb (f g : Z -> bool) l :
  filter f (filter g l) = filter (fun x => g x && f x) l.
Proof.
  induction l as [|x l IH]; simpl; [reflexivity|].
  destruct (g x); simpl; [destruct (f x); simpl; rewrite IH; reflexivity | exact IH].
Qed.

Lemma existsb_Zeqb_In x l : existsb (Z.eqb x) l = true <-> In x l.
Proof.
  rewrite existsb_exists. split.
  - intros (y & Hy & E). apply Z.eqb_eq in E; subst; exact Hy.
  - intros H; exists x; split; [exact H | apply Z.eqb_refl].
Qed.

Lemma complete_all_effect ids : forall w,
  fst (complete_all ids w) = Ok tt /\
  w_do (snd (complete_all ids w)) orchestrator_name =
    option_map (filter (fun x => negb (existsb (Z.eqb x) ids))) (w_do w orchestrator_name) /\
  (forall n, n <> orchestrator_name -> w_do (snd (complete_all ids w)) n = w_do w n) /\
  w_db (snd (complete_all ids w)) = w_db w /\
  w_acked (snd (complete_all ids w)) = w_acked w.
Proof.
  induction ids as [|a ids IH]; intros w.
  - simpl. repeat split; try reflexivity.
    destruct (w_do w orchestrator_name) as [l|]; simpl; [|reflexivity].
    f_equal. induction l as [|x l IHl]; simpl; [reflexivity | f_equal; exact IHl].
  - unfold complete_all; cbn [for_of].
    rewrite (bind_ok _ _ _ _ _ (workflowComplete_effect _ a w)).
    fold (complete_all ids).
    set (w1 := match w_do w orchestrator_name with
               | Some l => put_pending orchestrator_name (filter (fun id => negb (Z.eqb id a)) l) w
               | None => w
               end).
    destruct (IH w1) as (H1 & H2 & H3 & H4 & H5).
    split; [exact H1|].
    subst w1. destruct (w_do w orchestrator_name) as [l|] eqn:Ed.
    + split; [|split; [|split]].
      * rewrite H2. cbn [put_pending w_do]. rewrite String.eqb_refl. simpl.
        f_equal. rewrite filter_filter_comb. apply filter_ext.
        intros x. rewrite negb_orb. reflexivity.
      * intros n Hn. rewrite (H3 n Hn). cbn [put_pending w_do].
        apply String.eqb_neq in Hn. rewrite Hn. reflexivity.
      * exact H4.
      * exact H5.
    + split; [|split; [|split]]; [| exact H3 | exact H4 | exact H5].
      rewrite H2, Ed. reflexivity.
Qed.


(** [workflowComplete] notifications commute and may be repeated: completing
    the same set of search ids in any order and with any repetitions (as
    with redelivered messages) leaves every orchestrator's pending list the
    same. *)
Theorem complete_all_order_independent ids1 ids2 w :
  (forall x, In x ids1 <-> In x ids2) ->
  forall n, w_do (snd (complete_all ids1 w)) n = w_do (snd (complete_all ids2 w)) n.
Proof.
  intros Hs n.
  destruct (complete_all_effect ids1 w) as (_ & A2 & A3 & _).
  destruct (complete_all_effect ids2 w) as (_ & B2 & B3 & _).
  destruct (string_dec n orchestrator_name) as [->|Hn].
  - rewrite A2, B2. destruct (w_do w orchestrator_name) as [l|]; simpl; [|reflexivity].
    f_equal. apply filter_ext. intros x. f_equal.
    destruct (existsb (Z.eqb x) ids1) eqn:E1, (existsb (Z.eqb x) ids2) eqn:E2; auto.
    + apply existsb_Zeqb_In, Hs, existsb_Zeqb_In in E1. congruence.
    + apply existsb_Zeqb_In, Hs, existsb_Zeqb_In in E2. congruence.
  - rewrite (A3 n Hn), (B3 n Hn). reflexivity.
Qed.

Lemma complete_all_order_independent_witness :
  (forall x, In x [1; 2; 1] <-> In x [2; 1]) /\
  (forall n, w_do (snd (complete_all [1; 2; 1] w_started_ab)) n =
             w_do (snd (complete_all [2; 1] w_started_ab)) n).
Proof.
  assert (H : forall x, In x [1; 2; 1] <-> In x [2; 1]) by (intros x; simpl; tauto).
  split; [exact H|].
  exact (complete_all_order_independent [1; 2; 1] [2; 1] w_started_ab H).
Defined.

(** Once [workflowComplete] has been called for every id of the stored
    pending list (in any order, possibly with other ids), [getStatus]
    answers [Completed], for every session. *)
Theorem complete_all_pending_completes order_desc sid ids w :
  (forall l, w_do w orchestrator_name = Some l -> forall x, In x l -> In x ids) ->
  st_status (session_status_api order_desc sid (snd (complete_all ids w))) = Completed.
Proof.
  intros H. destruct (complete_all_effect ids w) as (_ & H2 & _).
  unfold session_status_api, getStatus. rewrite H2.
  destruct (w_do w orchestrator_name) as [l|] eqn:Ed; simpl; [|reflexivity].
  assert (E : filter (fun x => negb (existsb (Z.eqb x) ids)) l = []).
  { specialize (H l eq_refl). clear Ed H2. revert H.
    induction l as [|x l IHl]; intros H; simpl; [reflexivity|].
    assert (Hx : existsb (Z.eqb x) ids = true) by (apply existsb_Zeqb_In, H; left; reflexivity).
    rewrite Hx. simpl. apply IHl. intros y Hy; apply H; right; exact Hy. }
  rewrite E. reflexivity.
Qed.

Lemma complete_all_pending_completes_witness :
  (forall l, w_do w_started_ab orchestrator_name = Some l -> forall x, In x l -> In x [2; 1]) /\
  st_status (session_status_api engine_forward "session-A"
               (snd (complete_all [2; 1] w_started_ab))) = Completed.
Proof.
  assert (H : forall l, w_do w_started_ab orchestrator_name = Some l ->
                        forall x, In x l -> In x [2; 1]).
  { intros l Hl x Hx. vm_compute in Hl. injection Hl as <-. simpl in *. tauto. }
  split; [exact H|].
  exact (complete_all_pending_completes engine_forward "session-A" [2; 1] w_started_ab H).
Defined.

(** ** The [queue] handler: acknowledgements and [searches] *)

Lemma analyze_candidate_frame env sid id term r w :
  searches_t (w_db (snd (analyze_candidate env sid id term r w))) = searches_t (w_db w) /\
  sessions_t (w_db (snd (analyze_candidate env sid id term r w))) = sessions_t (w_db w) /\
  w_acked (snd (analyze_candidate env sid id term r w)) = w_acked w.
Proof.
  assert (E : analyze_candidate env sid id term r w =
              (if analysis_exists sid (full_name r) (rows_of w) then ret tt
               else bind (lift (analyzeRepository (analyzer_ai env) r term))
                         (fun score => db_run (insert_analysis sid id r score))) w)
    by reflexivity.
  rewrite E. clear E.
  destruct (analysis_exists sid (full_name r) (rows_of w)); [simpl; auto|].
  unfold bind, lift.
  destruct (analyzeRepository (analyzer_ai env) r term) as [q|e]; [|simpl; auto].
  unfold ret, db_run.
  destruct (insert_analysis sid id r q (w_db w)) as [d'|e] eqn:Ei; [|simpl; auto].
  unfold insert_analysis in Ei.
  destruct (analysis_exists sid (full_name r) (repo_analysis_t (w_db w))); [discriminate|].
  injection Ei as <-. simpl. auto.
Qed.

Lemma for_of_analyze_frame env sid id term items : forall w,
  searches_t (w_db (snd (for_of items (analyze_candidate env sid id term) w))) = searches_t (w_db w) /\
  sessions_t (w_db (snd (for_of items (analyze_candidate env sid id term) w))) = sessions_t (w_db w) /\
  w_acked (snd (for_of items (analyze_candidate env sid id term) w)) = w_acked w.
Proof.
  induction items as [|r items IH]; intros w; [simpl; auto|].
  cbn [for_of].
  destruct (analyze_candidate_frame env sid id term r w) as (H1 & H2 & H3).
  destruct (analyze_candidate env sid id term r w) as [[u|e] w1] eqn:E; simpl in *.
  - rewrite (bind_ok _ _ _ _ _ E). destruct (IH w1) as (H4 & H5 & H6).
    repeat split; congruence.
  - rewrite (bind_err _ _ _ _ _ E). simpl. auto.
Qed.

Lemma process_message_frame env msg w :
  match process_message env msg w with
  | (Ok _, w') =>
      w_acked w' = (w_acked w ++ [m_id msg])%list /\
      searches_t (w_db w') = searches_t (complete_search (msg_search_id (m_body msg)) (w_db w)) /\
      sessions_t (w_db w') = sessions_t (w_db w)
  | (Err _, w') =>
      w_acked w' = w_acked w /\
      searches_t (w_db w') = searches_t (w_db w) /\
      sessions_t (w_db w') = sessions_t (w_db w)
  end.
Proof.
  set (sid := msg_session_id (m_body msg)).
  set (id := msg_search_id (m_body msg)).
  set (term := msg_search_term (m_body msg)).
  destruct (search_loop_trace_only env term 3 3 0 w) as (t & Et & _).
  unfold process_message; cbv zeta. fold sid id term.
  destruct (searchRepositoriesWithRetry env term 3 w) as [[sr|e] w1] eqn:E1;
    unfold searchRepositoriesWithRetry in E1; rewrite E1 in Et; simpl in Et; subst w1.
  2: { rewrite (bind_err _ _ _ _ _ E1). simpl. auto. }
  rewrite (bind_ok _ _ _ _ _ E1).
  set (w1 := mkWorld (w_db w) (w_do w) (w_workflows w) (w_acked w) (w_trace w ++ t)).
  destruct sr as [[items|]|].
  2, 3: simpl; auto.
  rewrite (bind_ok _ _ _ items w1 eq_refl).
  destruct (for_of_analyze_frame env sid id term items w1) as (H1 & H2 & H3).
  destruct (for_of items (analyze_candidate env sid id term) w1) as [[u|e] w2] eqn:E2;
    simpl in H1, H2, H3.
  2: { rewrite (bind_err _ _ _ _ _ E2). auto. }
  rewrite (bind_ok _ _ _ _ _ E2).
  unfold bind, modify, workflowComplete.
  destruct (w_do (set_db (complete_search id (w_db w2)) w2) orchestrator_name);
    simpl; rewrite H3; (split; [reflexivity|]); unfold complete_search; simpl;
    rewrite H1, H2; split; reflexivity.
Qed.

(** The batch is processed in order and stops at the first message whose
    processing throws: the messages acknowledged are exactly a prefix of the
    batch, in batch order; all of them when the handler resolves, and none
    from the failing message on when it rejects. *)
Theorem queue_acks_prefix env batch w :
  match queue env batch w with
  | (Ok _, w') => w_acked w' = (w_acked w ++ map m_id batch)%list
  | (Err _, w') => exists k, (k < List.length batch)%nat /\
                   w_acked w' = (w_acked w ++ map m_id (firstn k batch))%list
  end.
Proof.
  unfold queue. revert w. induction batch as [|m batch IH]; intros w.
  - simpl. rewrite app_nil_r. reflexivity.
  - cbn [for_of]. pose proof (process_message_frame env m w) as Hf.
    destruct (process_message env m w) as [[u|e] w1] eqn:E.
    + rewrite (bind_ok _ _ _ _ _ E). destruct Hf as (Ha & _ & _).
      specialize (IH w1).
      destruct (for_of batch (process_message env) w1) as [[u'|e'] w2].
      * rewrite IH, Ha. simpl. rewrite <- app_assoc. reflexivity.
      * destruct IH as (k & Hk & Hw). exists (S k). split; [simpl; lia|].
        rewrite Hw, Ha. simpl. rewrite <- app_assoc. reflexivity.
    + rewrite (bind_err _ _ _ _ _ E). destruct Hf as (Ha & _ & _).
      exists O. split; [simpl; lia|]. simpl. rewrite app_nil_r. exact Ha.
Qed.

(** Processing a message changes no [sessions] row and, in [searches], at
    most its own task's row and only to ['completed'] (when it succeeds); a
    message whose processing throws leaves [searches] unchanged (no status
    ['failed'] is ever written). *)
Theorem process_message_searches_update env msg w :
  match process_message env msg w with
  | (Ok _, w') =>
      searches_t (w_db w') =
        map (fun r => if Z.eqb (sr_id r) (msg_search_id (m_body msg))
                      then mkSearchRow (sr_id r) (sr_session_id r) (sr_search_term r) StCompleted
                      else r) (searches_t (w_db w)) /\
      sessions_t (w_db w') = sessions_t (w_db w)
  | (Err _, w') =>
      searches_t (w_db w') = searches_t (w_db w) /\
      sessions_t (w_db w') = sessions_t (w_db w)
  end.
Proof.
  pose proof (process_message_frame env msg w) as Hf.
  destruct (process_message env msg w) as [[u|e] w'].
  - destruct Hf as (_ & H1 & H2). split; [exact H1 | exact H2].
  - destruct Hf as (_ & H1 & H2). split; [exact H1 | exact H2].
Qed.

Lemma filter_true_id (l : list Z) : filter (fun _ => true) l = l.
Proof. induction l as [|x l IH]; simpl; [reflexivity | f_equal; exact IH]. Qed.

Lemma option_map_filter_comb (f g : Z -> bool) o :
  option_map (filter f) (option_map (filter g) o) =
  option_map (filter (fun x => g x && f x)) o.
Proof. destruct o; simpl; [rewrite filter_filter_comb|]; reflexivity. Qed.

(** Processing a message can only filter the shared outstanding list. *)
Lemma process_message_do env msg w :
  exists f, w_do (snd (process_message env msg w)) orchestrator_name =
            option_map (filter f) (w_do w orchestrator_name).
Proof.
  assert (Hid : forall w', w_do w' = w_do w ->
            exists f, w_do w' orchestrator_name = option_map (filter f) (w_do w orchestrator_name)).
  { intros w' ->. exists (fun _ => true).
    destruct (w_do w orchestrator_name); simpl; [rewrite filter_true_id|]; reflexivity. }
  set (sid := msg_session_id (m_body msg)).
  set (id := msg_search_id (m_body msg)).
  set (term := msg_search_term (m_body msg)).
  destruct (search_loop_trace_only env term 3 3 0 w) as (t & Et & _).
  unfold process_message; cbv zeta. fold sid id term.
  destruct (searchRepositoriesWithRetry env term 3 w) as [[sr|e] w1] eqn:E1;
    unfold searchRepositoriesWithRetry in E1; rewrite E1 in Et; simpl in Et; subst w1.
  2: { rewrite (bind_err _ _ _ _ _ E1). apply Hid. reflexivity. }
  rewrite (bind_ok _ _ _ _ _ E1).
  set (w1 := mkWorld (w_db w) (w_do w) (w_workflows w) (w_acked w) (w_trace w ++ t)).
  destruct sr as [[items|]|].
  2, 3: apply Hid; reflexivity.
  rewrite (bind_ok _ _ _ items w1 eq_refl).
  destruct (for_of_analyze_ext env sid id term items w1) as (_ & _ & H3).
  destruct (for_of items (analyze_candidate env sid id term) w1) as [[u|e] w2] eqn:E2;
    simpl in H3.
  2: { rewrite (bind_err _ _ _ _ _ E2). apply Hid. exact H3. }
  rewrite (bind_ok _ _ _ _ _ E2).
  unfold bind, modify, workflowComplete.
  change (w_do (set_db (complete_search id (w_db w2)) w2)) with (w_do w2). rewrite H3.
  exists (fun x => negb (Z.eqb x id)).
  destruct (w_do w orchestrator_name) as [l|] eqn:Ed; simpl.
  - try rewrite String.eqb_refl; reflexivity.
  - rewrite H3, Ed. reflexivity.
Qed.

Lemma queue_do env batch : forall w,
  exists f, w_do (snd (queue env batch w)) orchestrator_name =
            option_map (filter f) (w_do w orchestrator_name).
Proof.
  unfold queue. induction batch as [|m batch IH]; intros w.
  - exists (fun _ => true). simpl.
    destruct (w_do w orchestrator_name); simpl; [rewrite filter_true_id|]; reflexivity.
  - cbn [for_of]. destruct (process_message_do env m w) as (g & Hg).
    destruct (process_message env m w) as [[u|e] w1] eqn:E; simpl in Hg.
    + rewrite (bind_ok _ _ _ _ _ E). destruct (IH w1) as (f & Hf).
      exists (fun x => g x && f x). rewrite Hf, Hg. apply option_map_filter_comb.
    + rewrite (bind_err _ _ _ _ _ E). exists g. exact Hg.
Qed.

Lemma run_request_do r w :
  exists f, w_do (snd (run_request r w)) orchestrator_name =
            option_map (filter f) (w_do w orchestrator_name).
Proof.
  destruct r as [env prompt|env batch|id]; cbn [run_request].
  - exists (fun _ => true).
    assert (E : w_do (snd (bind (session_api_start env prompt) (fun _ => ret tt) w)) = w_do w).
    { unfold bind. destruct (session_api_start_frame env prompt w) as [E|(d & E & _)];
        destruct (session_api_start env prompt w) as [[u|e] w1]; simpl in E; subst;
        reflexivity. }
    rewrite E. destruct (w_do w orchestrator_name); simpl; [rewrite filter_true_id|];
      reflexivity.
  - apply queue_do.
  - exists (fun x => negb (Z.eqb x id)). rewrite workflowComplete_effect. cbn [snd].
    destruct (w_do w orchestrator_name) as [l|] eqn:Ed; simpl.
    + try rewrite String.eqb_refl; reflexivity.
    + exact Ed.
Qed.

(** Whatever sequence of [Start] calls, queue batches and [workflowComplete]
    calls runs against the shared orchestrator, its ['pendingSearches']
    list only loses elements: nothing ever adds a search id to it (the one
    writer that would, [Start], throws first).  So a session can be pending
    afterwards only if the list was already non-empty before. *)
Theorem shared_pending_list_only_shrinks rs w :
  (exists f, w_do (run_requests rs w) orchestrator_name =
             option_map (filter f) (w_do w orchestrator_name)) /\
  (forall order_desc sid,
     st_status (session_status_api order_desc sid (run_requests rs w)) = Pending ->
     exists l x, w_do w orchestrator_name = Some l /\ In x l).
Proof.
  assert (Hs : exists f, w_do (run_requests rs w) orchestrator_name =
                         option_map (filter f) (w_do w orchestrator_name)).
  { revert w. induction rs as [|r rs IH]; intros w.
    - exists (fun _ => true). simpl.
      destruct (w_do w orchestrator_name); simpl; [rewrite filter_true_id|]; reflexivity.
    - cbn [run_requests]. destruct (run_request_do r w) as (g & Hg).
      destruct (IH (snd (run_request r w))) as (f & Hf).
      exists (fun x => g x && f x). rewrite Hf, Hg. apply option_map_filter_comb. }
  split; [exact Hs|].
  intros od sid Hp. destruct Hs as (f & Hf).
  unfold session_status_api, getStatus in Hp. rewrite Hf in Hp.
  destruct (w_do w orchestrator_name) as [l|]; simpl in Hp; [|discriminate].
  destruct (filter f l) as [|y r] eqn:Ef; [discriminate|].
  assert (Hy : In y (filter f l)) by (rewrite Ef; left; reflexivity).
  apply filter_In in Hy as [Hy _]. exists l, y. split; [reflexivity | exact Hy].
Qed.

(** ** The regex fallback of [analyzeRepository] *)

Lemma take_digits_all l : Forall (fun a => is_digit a = true) (take_digits l).
Proof.
  induction l as [|a l IH]; simpl; [constructor|].
  destruct (is_digit a) eqn:E; [constructor; assumption | constructor].
Qed.

Lemma regex_first_float_shape l m :
  regex_first_float l = Some m ->
  exists d dot frac, m = d :: dot :: frac /\ is_digit d = true /\
    frac <> [] /\ Forall (fun a => is_digit a = true) frac.
Proof.
  induction l as [|d rest IH]; simpl; [discriminate|].
  destruct rest as [|dot [|e rest']]; try discriminate.
  destruct (is_digit d && Ascii.eqb dot "." && is_digit e) eqn:E.
  - intros [= <-]. apply andb_true_iff in E as [E E3]. apply andb_true_iff in E as [E1 _].
    exists d, dot, (e :: take_digits rest'). repeat split; [exact E1 | discriminate |].
    constructor; [exact E3 | apply take_digits_all].
  - exact IH.
Qed.

Lemma digit_val_range a : is_digit a = true -> 0 <= digit_val a <= 9.
Proof.
  unfold is_digit, digit_val. intros H.
  apply andb_true_iff in H as [H1 H2]. apply Nat.leb_le in H1, H2. lia.
Qed.

Lemma fold_digits_range l : forall acc,
  Forall (fun a => is_digit a = true) l -> 0 <= acc ->
  acc * 10 ^ Z.of_nat (List.length l) <=
    fold_left (fun acc a => acc * 10 + digit_val a) l acc <
  (acc + 1) * 10 ^ Z.of_nat (List.length l).
Proof.
  induction l as [|a l IH]; intros acc Hd Ha.
  - simpl. lia.
  - cbn [fold_left List.length]. inversion Hd as [|? ? Ha' Hl]; subst.
    destruct (digit_val_range a Ha') as [D1 D2].
    assert (Hp : 0 < 10 ^ Z.of_nat (List.length l)) by (apply Z.pow_pos_nonneg; lia).
    rewrite Nat2Z.inj_succ, Z.pow_succ_r by lia.
    destruct (IH (acc * 10 + digit_val a) Hl ltac:(lia)) as [L R].
    split; nia.
Qed.

Lemma round_div_range a b :
  0 <= a -> 0 < b -> a / b <= round_div a b <= a / b + 1.
Proof.
  intros Ha Hb. unfold round_div. cbv zeta.
  destruct (Z.compare (2 * (a mod b)) b); [destruct (Z.even (a / b))|..]; lia.
Qed.

Lemma log2_ratio_le p q : log2_ratio p q <= Z.log2 p - Z.log2 q.
Proof.
  unfold log2_ratio. cbv zeta.
  destruct (0 <=? Z.log2 p - Z.log2 q);
    [destruct (q * 2 ^ (Z.log2 p - Z.log2 q) <=? p)
    |destruct (q <=? p * 2 ^ (- (Z.log2 p - Z.log2 q)))]; lia.
Qed.

(** A decimal in [0, 10) rounds to a double in [0, 10]. *)
Lemma double_of_ratio_range p q :
  0 <= p -> 0 < q -> p < 10 * q ->
  exists v, double_of_ratio p q = JsFinite v /\ (0 <= v <= 10)%Q.
Proof.
  intros Hp Hq Hpq. unfold double_of_ratio.
  destruct (p =? 0) eqn:E0.
  { exists 0%Q. split; [reflexivity|]. unfold Qle; simpl; lia. }
  apply Z.eqb_neq in E0.
  assert (Hl : Z.log2 p <= Z.log2 q + 4).
  { assert (H16 : p <= q * 2 ^ 4) by lia.
    apply Z.log2_le_mono in H16. rewrite Z.log2_mul_pow2 in H16 by lia. lia. }
  pose proof (log2_ratio_le p q) as Hr.
  cbv zeta. set (k := Z.min (52 - log2_ratio p q) 1074).
  assert (Hk : 0 <= k) by (unfold k; lia).
  destruct (0 <=? k) eqn:Ek; [|apply Z.leb_gt in Ek; lia].
  eexists; split; [reflexivity|].
  assert (H2k : 0 < 2 ^ k) by (apply Z.pow_pos_nonneg; lia).
  destruct (round_div_range (p * 2 ^ k) q ltac:(nia) Hq) as [R1 R2].
  assert (D1 : 0 <= p * 2 ^ k / q) by (apply Z.div_pos; nia).
  assert (D2 : p * 2 ^ k / q < 10 * 2 ^ k) by (apply Z.div_lt_upper_bound; nia).
  unfold Qle; cbn [Qnum Qden]. rewrite Z2Pos.id by exact H2k. split; lia.
Qed.

Lemma parse_float_match_range d dot frac v :
  is_digit d = true -> Forall (fun a => is_digit a = true) frac ->
  parse_float_match (d :: dot :: frac) = JsFinite v -> (0 <= v <= 10)%Q.
Proof.
  intros Hd Hf. destruct (digit_val_range d Hd) as [D1 D2].
  set (k := 10 ^ Z.of_nat (List.length frac)).
  assert (Hk : 0 < k) by (apply Z.pow_pos_nonneg; lia).
  destruct (fold_digits_range frac 0 Hf ltac:(lia)) as [L R]. fold k in L, R.
  unfold parse_float_match, decimal_of_match, digits_Z. fold k. cbv beta iota.
  set (f := fold_left _ frac 0) in *.
  destruct (double_of_ratio_range (digit_val d * k + f) k ltac:(nia) Hk ltac:(nia))
    as (w & Ew & Hw).
  rewrite Ew.
  destruct (Qeq_bool w (Qmake (digit_val d * k + f) (Z.to_pos k))); intros [= <-].
  - unfold Qle; cbn [Qnum Qden]. rewrite Z2Pos.id by exact Hk. split; nia.
  - exact Hw.
Qed.

(** When the structuring call fails, the score [analyzeRepository] falls back
    to ([Number.parseFloat] of the match of [\d\.\d+], or 0) is always in
    [0, 10]: the pattern reads no sign and one digit before the point, and
    rounding to a double can reach 10 itself, as for
    "9.99999999999999999". *)
Theorem regex_fallback_range :
  (forall raw, (0 <= regex_fallback raw <= 10)%Q) /\
  (regex_fallback "9.99999999999999999" == 10)%Q.
Proof.
  split; [|vm_compute; reflexivity].
  intros raw. unfold regex_fallback.
  destruct (regex_first_float (list_ascii_of_string raw)) as [m|] eqn:E.
  2: { unfold Qle; simpl; lia. }
  destruct (regex_first_float_shape _ _ E) as (d & dot & frac & -> & Hd & _ & Hf).
  destruct (parse_float_match (d :: dot :: frac)) as [| | |v] eqn:Ep;
    try (unfold Qle; simpl; lia).
  exact (parse_float_match_range d dot frac v Hd Hf Ep).
Qed.
